(** * Inter-worker RPC connection layer: client pool and bounded executor

    A shallow embedding of [ray::core::BoundedExecutor] (bounded_executor.h)
    and of [ray::rpc::CoreWorkerClientPool] (core_worker_client_pool.cc),
    followed by the properties of the connection-layer specification that
    are settled against them.

    Modelling conventions.
    - The pool's [client_list_] is a [std::list]: its nodes have an identity
      that survives splicing of their neighbours, and [client_map_] stores
      iterators to them.  A node is a pair of a handle (a natural number,
      allocated fresh by [emplace_front]) and the entry it holds; iterators
      are handles.
    - [client_map_] is a hash map keyed by worker id: a [gmap].
    - Every public operation holds [mu_] for its whole duration, so an
      operation is one atomic transition of the pool state.
    - [RAY_CHECK] failures abort the process: the [Fatal] outcome.
    - The injected client factory and each client's [IsIdleAfterRPCs] are
      the caller's; their invocations are recorded in a trace. *)

From stdpp Require Import gmap strings list fin_maps.
From Stdlib Require Import ZArith.

Set Warnings "-clear-no-such-hyp".

Open Scope Z_scope.

(* ===================================================================== *)
(** ** Bounded executor (bounded_executor.h)                              *)
(* ===================================================================== *)

Module BoundedExecutor.

(** [static bool NeedDefaultExecutor(int32_t, bool)]. *)
Definition NeedDefaultExecutor (max_concurrency_in_default_group : Z)
    (has_other_concurrency_groups : bool) : bool :=
  if max_concurrency_in_default_group =? 0 then false
  else (max_concurrency_in_default_group >? 1) || has_other_concurrency_groups.

Section ThreadPool.
Context {Closure : Type}.

(** [boost::asio::thread_pool] as the executor sees it: a fixed number
    of threads, the closures they are running, and the FIFO of posted
    closures no thread has picked up yet. *)
Record thread_pool := mk_thread_pool {
  num_threads : nat;
  executing : list Closure;
  pending : list Closure
}.

(** [boost::asio::post(pool, fn)]: the function object is queued for
    execution and the call returns. *)
Definition asio_post (fn : Closure) (p : thread_pool) : thread_pool :=
  {| num_threads := num_threads p;
     executing := executing p;
     pending := pending p ++ [fn] |}.

(** A free pool thread takes the closure at the head of the queue. *)
Definition dispatch (p : thread_pool) : option thread_pool :=
  match pending p with
  | fn :: rest =>
      if decide (length (executing p) < num_threads p)%nat
      then Some {| num_threads := num_threads p;
                   executing := executing p ++ [fn];
                   pending := rest |}
      else None
  | [] => None
  end.

Record t := mk { pool_ : thread_pool }.

(** Modelled from the spec: the constructor [BoundedExecutor(int)] is
    declared in the header and defined elsewhere; it "builds an
    underlying thread pool of exactly max_concurrency worker threads". *)
Definition create (max_concurrency : nat) : t :=
  {| pool_ := {| num_threads := max_concurrency; executing := []; pending := [] |} |}.

(** [void Post(std::function<void()> fn)]. *)
Definition Post (fn : Closure) (e : t) : t :=
  {| pool_ := asio_post fn (pool_ e) |}.

(** All slots are occupied by executing closures. *)
Definition saturated (e : t) : Prop :=
  length (executing (pool_ e)) = num_threads (pool_ e).

(** The caller posts the closures of [fns] one after the other while
    no executing closure finishes. *)
Definition PostAll (fns : list Closure) (e : t) : t :=
  foldl (fun acc fn => Post fn acc) e fns.

End ThreadPool.
Arguments thread_pool : clear implicits.
Arguments t : clear implicits.

End BoundedExecutor.

(* ===================================================================== *)
(** ** Addresses and outcomes                                             *)
(* ===================================================================== *)

(** [rpc::Address], the fields the connection layer reads. *)
Module Address.
Record t := mk {
  raylet_id : string;
  ip_address : string;
  port : Z;
  worker_id : string
}.
End Address.

(** Why a call did not return. *)
Inductive Failure :=
| CheckFailed (what : string)   (* a RAY_CHECK aborted the process *)
| DanglingIterator              (* an iterator to no node was dereferenced *)
| OutOfFuel.                    (* the loop bound of the model was too small *)

Inductive outcome (S A : Type) :=
| Ok (a : A) (s : S)
| Fatal (f : Failure).
Arguments Ok {S A} a s.
Arguments Fatal {S A} f.

(** Operations on a state [S] that may abort. *)
Definition M (S A : Type) : Type := S -> outcome S A.

Global Instance M_ret {S} : MRet (M S) := fun A a s => Ok a s.

Global Instance M_bind {S} : MBind (M S) := fun A B k m s =>
  match m s with
  | Ok a s' => k a s'
  | Fatal f => Fatal f
  end.

Definition modify {S} (f : S -> S) : M S unit := fun s => Ok tt (f s).
Definition gets {S A} (f : S -> A) : M S A := fun s => Ok (f s) s.
Definition abort {S A} (f : Failure) : M S A := fun _ => Fatal f.

(** [RAY_CHECK_NE(a, b)] on strings. *)
Definition RAY_CHECK_NE {S} (a b : string) : M S unit :=
  if decide (a = b) then abort (CheckFailed "RAY_CHECK_NE") else mret tt.

(** [RAY_CHECK(cond)]. *)
Definition RAY_CHECK {S} (cond : bool) : M S unit :=
  if cond then mret tt else abort (CheckFailed "RAY_CHECK").

(* ===================================================================== *)
(** ** Client pool (core_worker_client_pool.cc)                           *)
(* ===================================================================== *)

(** Handles of [std::list] nodes; a [std::list] iterator is such a handle. *)
Definition ListIter := nat.

Section PoolModel.

(** [WorkerID] and [WorkerID::FromBinary] come from ray/common/id.h, the
    client interface from core_worker_client.h; the pool compares and
    hashes worker ids and otherwise treats both as opaque. *)
Context {WorkerID : Type} `{Countable WorkerID}.
Context {Client FactoryState : Type}.
Variable WorkerID_FromBinary : string -> WorkerID.

(** [core_worker_client_factory_]: the injected factory. It may keep state
    of its own (say, a counter of the clients it has built). *)
Variable core_worker_client_factory_ :
  Address.t -> FactoryState -> Client * FactoryState.

(** [struct CoreWorkerClientEntry]. *)
Record CoreWorkerClientEntry := mk_entry {
  worker_id : WorkerID;
  core_worker_client : Client
}.

(** Calls the pool makes on its collaborators. *)
Inductive Event :=
| IsIdleAfterRPCs_called (c : Client)
| factory_called (addr : Address.t).

(** [class CoreWorkerClientPool], with the state of the collaborators
    the pool calls. The newest event is at the head of [trace_]. *)
Record CoreWorkerClientPool := mk_pool {
  client_list_ : list (ListIter * CoreWorkerClientEntry);
  client_map_ : gmap WorkerID ListIter;
  next_node_ : ListIter;
  factory_state_ : FactoryState;
  trace_ : list Event
}.

Definition set_list (f : list (ListIter * CoreWorkerClientEntry) ->
                         list (ListIter * CoreWorkerClientEntry))
    (p : CoreWorkerClientPool) : CoreWorkerClientPool :=
  mk_pool (f (client_list_ p)) (client_map_ p) (next_node_ p)
          (factory_state_ p) (trace_ p).

Definition set_map (f : gmap WorkerID ListIter -> gmap WorkerID ListIter)
    (p : CoreWorkerClientPool) : CoreWorkerClientPool :=
  mk_pool (client_list_ p) (f (client_map_ p)) (next_node_ p)
          (factory_state_ p) (trace_ p).

Definition log_event (e : Event) (p : CoreWorkerClientPool) : CoreWorkerClientPool :=
  mk_pool (client_list_ p) (client_map_ p) (next_node_ p)
          (factory_state_ p) (e :: trace_ p).

(** A pool just constructed. *)
Definition empty_pool (fs : FactoryState) : CoreWorkerClientPool :=
  mk_pool [] ∅ 0%nat fs [].

(** *** [std::list] primitives *)

(** [l.erase(it)]: unlink the node [it] points to. *)
Fixpoint list_erase (it : ListIter) (l : list (ListIter * CoreWorkerClientEntry)) :
    list (ListIter * CoreWorkerClientEntry) :=
  match l with
  | [] => []
  | n :: l' => if decide (n.1 = it) then l' else n :: list_erase it l'
  end.

(** [*it]: the entry in the node [it] points to. *)
Fixpoint list_deref (it : ListIter) (l : list (ListIter * CoreWorkerClientEntry)) :
    option CoreWorkerClientEntry :=
  match l with
  | [] => None
  | n :: l' => if decide (n.1 = it) then Some n.2 else list_deref it l'
  end.

(** [l.pop_back()]: unlink the last node. *)
Definition pop_back (l : list (ListIter * CoreWorkerClientEntry)) :
    list (ListIter * CoreWorkerClientEntry) :=
  List.removelast l.

(** [client_list_.emplace_front(entry)]: a new node, linked at the front. *)
Definition emplace_front (entry : CoreWorkerClientEntry)
    (p : CoreWorkerClientPool) : CoreWorkerClientPool :=
  mk_pool ((next_node_ p, entry) :: client_list_ p) (client_map_ p)
          (S (next_node_ p)) (factory_state_ p) (trace_ p).

(** [client_map_[id] = client_list_.begin()]. *)
Definition map_assign_begin (id : WorkerID)
    (p : CoreWorkerClientPool) : CoreWorkerClientPool :=
  match client_list_ p with
  | n :: _ => set_map (insert id n.1) p
  | [] => p
  end.

(** [client->IsIdleAfterRPCs()], answered by the clients' present state
    [idle] and recorded. *)
Definition IsIdleAfterRPCs (idle : Client -> bool) (c : Client) :
    M CoreWorkerClientPool bool :=
  fun p => Ok (idle c) (log_event (IsIdleAfterRPCs_called c) p).

(** [core_worker_client_factory_(addr)], recorded. *)
Definition call_factory (addr : Address.t) : M CoreWorkerClientPool Client :=
  fun p =>
    let '(c, fs) := core_worker_client_factory_ addr (factory_state_ p) in
    Ok c (mk_pool (client_list_ p) (client_map_ p) (next_node_ p) fs
                  (factory_called addr :: trace_ p)).

(** *** [CoreWorkerClientPool::RemoveIdleClients] *)

(** The [while] loop; [fuel] bounds the number of iterations. *)
Fixpoint RemoveIdleClients_loop (idle : Client -> bool) (fuel : nat) :
    M CoreWorkerClientPool unit :=
  fun p =>
    match last (client_list_ p) with
    | None => Ok tt p
    | Some back =>
        match fuel with
        | O => Fatal OutOfFuel
        | S fuel' =>
            let id := worker_id back.2 in
            (is_idle ← IsIdleAfterRPCs idle (core_worker_client back.2);
             if is_idle : bool then
               modify (set_map (delete id));;
               modify (set_list pop_back);;
               RemoveIdleClients_loop idle fuel'
             else
               let entry := back.2 in
               modify (set_list pop_back);;
               modify (emplace_front entry);;
               modify (map_assign_begin id)) p
        end
    end.

(** Every iteration but the last removes a node, so the length of the list
    bounds the number of iterations. *)
Definition RemoveIdleClients (idle : Client -> bool) : M CoreWorkerClientPool unit :=
  fun p => RemoveIdleClients_loop idle (length (client_list_ p)) p.

(** *** [CoreWorkerClientPool::GetOrConnect] *)

Definition GetOrConnect (idle : Client -> bool) (addr_proto : Address.t) :
    M CoreWorkerClientPool Client :=
  RAY_CHECK_NE (Address.worker_id addr_proto) EmptyString;;
  RemoveIdleClients idle;;
  let id := WorkerID_FromBinary (Address.worker_id addr_proto) in
  it ← gets (fun p => client_map_ p !! id);
  entry ← match it with
          | Some it =>
              e ← (fun p => match list_deref it (client_list_ p) with
                            | Some e => Ok e p
                            | None => Fatal DanglingIterator
                            end);
              modify (set_list (list_erase it));;
              mret e
          | None =>
              c ← call_factory addr_proto;
              mret (mk_entry id c)
          end;
  modify (emplace_front entry);;
  modify (map_assign_begin id);;
  mret (core_worker_client entry).

(** *** [CoreWorkerClientPool::Disconnect] *)

Definition Disconnect (id : WorkerID) : M CoreWorkerClientPool unit :=
  it ← gets (fun p => client_map_ p !! id);
  match it with
  | None => mret tt
  | Some it =>
      modify (set_list (list_erase it));;
      modify (set_map (delete id))
  end.

End PoolModel.

Arguments CoreWorkerClientEntry : clear implicits.
Arguments Event : clear implicits.
Arguments CoreWorkerClientPool WorkerID {_ _} Client FactoryState.

(* ===================================================================== *)
(** ** The eviction walk as the specification words it                    *)
(* ===================================================================== *)

Section EvictionWalk.

Context {WorkerID : Type} `{Countable WorkerID}.
Context {Client FactoryState : Type}.

Local Abbreviation Node := (ListIter * CoreWorkerClientEntry WorkerID Client)%type.
Local Abbreviation Pool := (CoreWorkerClientPool WorkerID Client FactoryState).

(** The candidates in the order the walk meets them (least recently used
    first), split into those the walk removes and the place where it
    stops: the first candidate that is not idle, with the candidates the
    walk never reaches. *)
Fixpoint walk_split (idle : Client -> bool) (from_back : list Node) :
    list Node * option (Node * list Node) :=
  match from_back with
  | [] => ([], None)
  | candidate :: rest =>
      if idle (core_worker_client candidate.2)
      then let '(evicted, stop) := walk_split idle rest in
           (candidate :: evicted, stop)
      else ([], Some (candidate, rest))
  end.

(** The eviction walk in the words of the specification, to compare
    [RemoveIdleClients] with: every idle candidate met is gone from the
    mapping and from the sequence; the busy candidate at which the walk
    stops has left the back and is the new front. Each candidate met was
    asked [IsIdleAfterRPCs] once, in the order of the walk. *)
Definition EvictionWalkSpec (idle : Client -> bool) (p : Pool) : Pool :=
  let '(evicted, stop) := walk_split idle (reverse (client_list_ p)) in
  let map' := foldl (fun m n => delete (worker_id n.2) m) (client_map_ p) evicted in
  let trace' :=
    reverse ((fun n => IsIdleAfterRPCs_called (core_worker_client n.2)) <$> evicted)
      ++ trace_ p in
  match stop with
  | None =>
      mk_pool [] map' (next_node_ p) (factory_state_ p) trace'
  | Some (busy, unreached) =>
      mk_pool ((next_node_ p, busy.2) :: reverse unreached)
              (<[worker_id busy.2 := next_node_ p]> map')
              (S (next_node_ p)) (factory_state_ p)
              (IsIdleAfterRPCs_called (core_worker_client busy.2) :: trace')
  end.

End EvictionWalk.

(* ===================================================================== *)
(** ** Pool invariants and runs of operations                             *)
(* ===================================================================== *)

Section PoolInvariant.

Context {WorkerID : Type} `{Countable WorkerID}.
Context {Client FactoryState : Type}.

Local Abbreviation Node := (ListIter * CoreWorkerClientEntry WorkerID Client)%type.
Local Abbreviation Pool := (CoreWorkerClientPool WorkerID Client FactoryState).

(** The worker ids of the sequence, front to back. *)
Definition list_ids (l : list Node) : list WorkerID :=
  (fun n => worker_id n.2) <$> l.

(** The entries of the sequence, front to back. *)
Definition list_entries (l : list Node) : list (CoreWorkerClientEntry WorkerID Client) :=
  snd <$> l.

(** The representation invariant of the pool: node handles are distinct
    and allocated, the mapping sends a worker id to the node that holds
    its entry and to nothing else, and no two nodes hold the same id. *)
Record pool_wf (p : Pool) : Prop := mk_pool_wf {
  wf_handles : NoDup (client_list_ p).*1;
  wf_allocated : forall n, n ∈ client_list_ p -> (n.1 < next_node_ p)%nat;
  wf_map : forall id it,
    client_map_ p !! id = Some it <->
    exists c, (it, mk_entry id c) ∈ client_list_ p;
  wf_ids : NoDup (list_ids (client_list_ p))
}.

(** The invariant the specification states for quiescent points. *)
Definition pool_invariant (p : Pool) : Prop :=
  size (client_map_ p) = length (client_list_ p) /\
  dom (client_map_ p) = list_to_set (list_ids (client_list_ p)) /\
  NoDup (list_ids (client_list_ p)).

(** The pool holds an entry for [id]. *)
Definition has_entry (id : WorkerID) (p : Pool) : Prop :=
  id ∈ dom (client_map_ p) \/ id ∈ list_ids (client_list_ p).

(** How often the injected factory was invoked. *)
Definition factory_calls (tr : list (Event Client)) : nat :=
  length (List.filter (fun e => match e with factory_called _ => true | _ => false end) tr).

(** How often [IsIdleAfterRPCs] was asked. *)
Definition idle_queries (tr : list (Event Client)) : nat :=
  length (List.filter (fun e => match e with IsIdleAfterRPCs_called _ => true | _ => false end) tr).

End PoolInvariant.

Section PoolRuns.

Context {WorkerID : Type} `{Countable WorkerID}.
Context {Client FactoryState : Type}.
Variable WorkerID_FromBinary : string -> WorkerID.
Variable core_worker_client_factory_ :
  Address.t -> FactoryState -> Client * FactoryState.

Local Abbreviation Pool := (CoreWorkerClientPool WorkerID Client FactoryState).

(** A public operation of the pool, as one caller issues it. A
    [GetOrConnect] comes with the answers the clients give to
    [IsIdleAfterRPCs] at that moment. *)
Inductive PoolOp :=
| OpGetOrConnect (idle : Client -> bool) (addr : Address.t)
| OpDisconnect (id : WorkerID).

Definition run_op (op : PoolOp) : M Pool unit :=
  match op with
  | OpGetOrConnect idle addr =>
      GetOrConnect WorkerID_FromBinary core_worker_client_factory_ idle addr;;
      mret tt
  | OpDisconnect id => Disconnect id
  end.

Fixpoint run_ops (ops : list PoolOp) : M Pool unit :=
  match ops with
  | [] => mret tt
  | op :: ops' => run_op op;; run_ops ops'
  end.

(** No operation of [ops] is a [GetOrConnect] for worker [w]. *)
Definition no_GetOrConnect_for (w : WorkerID) (ops : list PoolOp) : Prop :=
  Forall (fun op => match op with
                    | OpGetOrConnect _ addr =>
                        WorkerID_FromBinary (Address.worker_id addr) <> w
                    | OpDisconnect _ => True
                    end) ops.

End PoolRuns.

Arguments PoolOp : clear implicits.

(* ===================================================================== *)
(** ** The liveness-timeout callback                                      *)
(** [CoreWorkerClientPool::GetDefaultUnavailableTimeoutCallback]           *)
(* ===================================================================== *)

(** [rpc::GcsNodeInfo], the fields the callback reads. *)
Record GcsNodeInfo := mk_node_info {
  node_manager_address : string;
  node_manager_port : Z
}.

(** [ray::Status], as far as [ok()] tells. *)
Inductive Status :=
| Status_OK
| Status_error (code : string).

Definition ok (s : Status) : bool :=
  match s with Status_OK => true | Status_error _ => false end.

(** [rpc::IsLocalWorkerDeadReply]. *)
Record IsLocalWorkerDeadReply := mk_reply { is_dead : bool }.

Section UnavailableTimeoutCallback.

Context {WorkerID : Type} `{Countable WorkerID}.
Context {Client FactoryState NodeID RayletClient : Type}.
Variable WorkerID_FromBinary : string -> WorkerID.
Variable NodeID_FromBinary : string -> NodeID.

Local Abbreviation Pool := (CoreWorkerClientPool WorkerID Client FactoryState).

(** [gcs_client->Nodes()]: the subscription flag and the membership
    query [Get(node_id, filter_dead_nodes)]. *)
Record GcsClient := mk_gcs {
  IsSubscribedToNodeChange : bool;
  Nodes_Get : NodeID -> bool -> option GcsNodeInfo
}.

(** Calls the callback makes on the objects it captured, newest first. *)
Inductive CallbackCall :=
| Disconnect_called (id : WorkerID)
| raylet_client_factory_called (address : string) (port : Z)
| IsLocalWorkerDead_called (rc : RayletClient) (id : WorkerID).

(** The pool the callback captured, and the calls made so far. *)
Record CallbackWorld := mk_world {
  worker_client_pool : Pool;
  calls : list CallbackCall
}.

(** An [IsLocalWorkerDead] request in flight: the completion handler is
    run later, on the RPC completion thread, on the world it then finds. *)
Record PendingProbe := mk_probe {
  probe_client : RayletClient;
  probe_worker : WorkerID;
  probe_callback : Status -> IsLocalWorkerDeadReply -> M CallbackWorld unit
}.

(** [worker_client_pool->Disconnect(worker_id)]. *)
Definition pool_Disconnect (worker_id : WorkerID) : M CallbackWorld unit :=
  fun w =>
    match Disconnect worker_id (worker_client_pool w) with
    | Ok _ p' => Ok tt (mk_world p' (Disconnect_called worker_id :: calls w))
    | Fatal f => Fatal f
    end.

(** The completion handler passed to [IsLocalWorkerDead]. *)
Definition IsLocalWorkerDead_done (worker_id : WorkerID)
    (status : Status) (reply : IsLocalWorkerDeadReply) : M CallbackWorld unit :=
  if negb (ok status) then mret tt
  else if is_dead reply then pool_Disconnect worker_id
  else mret tt.

Variable raylet_client_factory : string -> Z -> RayletClient.

(** The callback itself. It returns the request it left in flight, if any. *)
Definition UnavailableTimeoutCallback (gcs_client : GcsClient) (addr : Address.t) :
    M CallbackWorld (option PendingProbe) :=
  let node_id := NodeID_FromBinary (Address.raylet_id addr) in
  let worker_id := WorkerID_FromBinary (Address.worker_id addr) in
  RAY_CHECK (IsSubscribedToNodeChange gcs_client);;
  match Nodes_Get gcs_client node_id true with
  | None =>
      pool_Disconnect worker_id;;
      mret None
  | Some node_info =>
      modify (fun w => mk_world (worker_client_pool w)
                (raylet_client_factory_called (node_manager_address node_info)
                                              (node_manager_port node_info) :: calls w));;
      let raylet_client :=
        raylet_client_factory (node_manager_address node_info)
                              (node_manager_port node_info) in
      modify (fun w => mk_world (worker_client_pool w)
                (IsLocalWorkerDead_called raylet_client worker_id :: calls w));;
      mret (Some (mk_probe raylet_client worker_id (IsLocalWorkerDead_done worker_id)))
  end.

(** The number of calls made on raylet clients and their factory. *)
Definition probe_calls (cs : list CallbackCall) : nat :=
  length (List.filter (fun c => match c with Disconnect_called _ => false | _ => true end) cs).

End UnavailableTimeoutCallback.

Arguments GcsClient : clear implicits.
Arguments CallbackCall : clear implicits.
Arguments CallbackWorld WorkerID {_ _} Client FactoryState RayletClient.
Arguments PendingProbe WorkerID {_ _} Client FactoryState RayletClient.

(* ===================================================================== *)
(** ** Runs of the walk, lifetimes and frames                             *)
(* ===================================================================== *)

Section PoolObservations.

Context {WorkerID : Type} `{Countable WorkerID}.
Context {Client FactoryState : Type}.

Local Abbreviation Pool := (CoreWorkerClientPool WorkerID Client FactoryState).

(** [RemoveIdleClients] run [n] times in a row, with the clients
    answering [idle] each time. *)
Fixpoint RemoveIdleClients_times (idle : Client -> bool) (n : nat) : M Pool unit :=
  match n with
  | O => mret tt
  | S n' => RemoveIdleClients idle;; RemoveIdleClients_times idle n'
  end.

(** During [ops] the client [c] of worker [w] answers every
    [IsIdleAfterRPCs] with false, and nobody disconnects [w]. *)
Definition stays_busy (w : WorkerID) (c : Client)
    (ops : list (PoolOp WorkerID Client)) : Prop :=
  Forall (fun op => match op with
                    | OpGetOrConnect idle _ => idle c = false
                    | OpDisconnect id => id <> w
                    end) ops.

(** The number of [GetOrConnect] calls in [ops]. *)
Definition GetOrConnect_count (ops : list (PoolOp WorkerID Client)) : nat :=
  length (List.filter (fun op => match op with
                                 | OpGetOrConnect _ _ => true
                                 | OpDisconnect _ => false
                                 end) ops).


End PoolObservations.

(* ===================================================================== *)
(** ** Fixtures: a counting factory and scripted clients                  *)
(* ===================================================================== *)

Module Fixture.

(** Worker ids are their binary strings. *)
Definition FromBinary (s : string) : string := s.

(** The factory numbers the clients it builds: its state is the number of
    clients built so far, and a client is its serial number. *)
Definition counting_factory (_ : Address.t) (built : nat) : nat * nat :=
  (built, S built).

Definition addr_of (w : string) : Address.t :=
  Address.mk "node-1" "10.0.0.1" 7000 w.

Definition never_idle (_ : nat) : bool := false.
Definition always_idle (_ : nat) : bool := true.

(** Clients 1 and 2 idle, the others busy. *)
Definition scripted_idle (c : nat) : bool :=
  match c with
  | 1%nat | 2%nat => true
  | _ => false
  end.

Definition GetOrConnect := GetOrConnect FromBinary counting_factory.

Definition fresh_pool : CoreWorkerClientPool string nat nat := empty_pool 0%nat.

(** The pool after [GetOrConnect(w2); GetOrConnect(w1); GetOrConnect(w3)]
    on busy clients: each walk promotes the busy entry it finds at the
    back, which leaves the order w3, w2, w1. Client 0 serves w2, client 1
    serves w1 and client 2 serves w3. *)
Definition pool_w3_w2_w1 : CoreWorkerClientPool string nat nat :=
  mk_pool [(4, mk_entry "w3" 2); (3, mk_entry "w2" 0); (2, mk_entry "w1" 1)]%nat
          (<["w3" := 4%nat]> (<["w2" := 3%nat]> (<["w1" := 2%nat]> ∅)))
          5%nat 3%nat
          [factory_called (addr_of "w3"); IsIdleAfterRPCs_called 0%nat;
           factory_called (addr_of "w1"); IsIdleAfterRPCs_called 0%nat;
           factory_called (addr_of "w2")].

(** The pool after [GetOrConnect(w1)] on a new pool. *)
Definition pool_w1 : CoreWorkerClientPool string nat nat :=
  mk_pool [(0%nat, mk_entry "w1" 0%nat)] (<["w1" := 0%nat]> ∅) 1%nat 1%nat
          [factory_called (addr_of "w1")].

(** The calls that build [pool_w3_w2_w1]. *)
Definition connect_w2_w1_w3 : list (PoolOp string nat) :=
  [OpGetOrConnect never_idle (addr_of "w2");
   OpGetOrConnect never_idle (addr_of "w1");
   OpGetOrConnect never_idle (addr_of "w3")].

(** A cluster-membership view in which every node is alive. *)
Definition gcs_all_alive : GcsClient string :=
  mk_gcs true (fun _ _ => Some (mk_node_info "10.0.0.9" 9000)).

(** A cluster-membership view in which no node is alive. *)
Definition gcs_none_alive : GcsClient string :=
  mk_gcs true (fun _ _ => None).

Definition raylet_at (address : string) (port : Z) : string * Z := (address, port).

(** [BoundedExecutor(2)] after two closures, named 1 and 2, were posted
    and each was taken by a pool thread; both are still running. *)
Definition executor_two_running : BoundedExecutor.t nat :=
  let e := BoundedExecutor.Post 2%nat (BoundedExecutor.Post 1%nat (BoundedExecutor.create 2)) in
  match BoundedExecutor.dispatch (BoundedExecutor.pool_ e) with
  | Some q =>
      match BoundedExecutor.dispatch q with
      | Some q' => BoundedExecutor.mk q'
      | None => e
      end
  | None => e
  end.

End Fixture.

(* ===================================================================== *)
(** * Facts about the model                                               *)
(* ===================================================================== *)

Ltac unfold_M :=
  unfold mbind, M_bind, mret, M_ret, modify, gets, abort in *; simpl in *.

(** ** The [std::list] primitives *)

Section ListFacts.

Context {WorkerID Client : Type}.
Local Abbreviation Node := (ListIter * CoreWorkerClientEntry WorkerID Client)%type.

Lemma list_erase_notin (it : ListIter) (l : list Node) :
  it ∉ l.*1 -> list_erase it l = l.
Proof.
  induction l as [|n l IH]; simpl; [done|].
  intros Hn. apply not_elem_of_cons in Hn as [Hne Hl].
  destruct (decide (n.1 = it)); [congruence|]. by rewrite IH.
Qed.

Lemma list_erase_split (it : ListIter) (e : CoreWorkerClientEntry WorkerID Client)
    (l : list Node) :
  NoDup l.*1 -> (it, e) ∈ l ->
  exists l1 l2, l = l1 ++ (it, e) :: l2 /\
                list_erase it l = l1 ++ l2 /\
                list_deref it l = Some e.
Proof.
  induction l as [|n l IH]; simpl; intros Hnd Hin.
  - by apply elem_of_nil in Hin.
  - apply NoDup_cons in Hnd as [Hn Hnd].
    destruct (decide (n.1 = it)) as [Heq|Hne].
    + assert (n = (it, e)) as ->.
      { apply elem_of_cons in Hin as [->|Hin]; [done|].
        exfalso. apply Hn. rewrite Heq.
        apply list_elem_of_fmap. by exists (it, e). }
      by exists [], l.
    + apply elem_of_cons in Hin as [Hin|Hin]; [by subst n|].
      destruct (IH Hnd Hin) as (l1 & l2 & -> & Her & Hde).
      exists (n :: l1), l2. by rewrite Her.
Qed.

Lemma pop_back_snoc (l : list Node) (x : Node) : pop_back (l ++ [x]) = l.
Proof. apply removelast_last. Qed.

Lemma list_erase_snoc (l : list Node) (x : Node) :
  NoDup (l ++ [x]).*1 -> list_erase x.1 (l ++ [x]) = l.
Proof.
  intros Hnd.
  destruct (list_erase_split x.1 x.2 (l ++ [x]) Hnd) as (l1 & l2 & Heq & Her & _).
  { destruct x; set_solver. }
  rewrite Her. destruct x as [it e]; simpl in *.
  rewrite Heq in Hnd.
  assert (l2 = []) as ->.
  { destruct l2 as [|y l2 _] using rev_ind; [done|].
    rewrite app_comm_cons, app_assoc in Heq.
    apply app_inj_tail in Heq as [_ <-].
    rewrite fmap_app, fmap_cons, NoDup_app in Hnd.
    destruct Hnd as (_ & _ & Hnd). apply NoDup_cons in Hnd as [Hn _].
    rewrite fmap_app in Hn. set_solver. }
  apply app_inj_tail in Heq as [-> _]. by rewrite app_nil_r.
Qed.

Lemma last_cases (l : list Node) :
  (l = [] /\ last l = None) \/ (exists l' x, l = l' ++ [x] /\ last l = Some x).
Proof.
  destruct l as [|x l _] using rev_ind; [by left|].
  right. exists l, x. by rewrite last_snoc.
Qed.

End ListFacts.

(** ** The representation invariant *)

Section InvariantFacts.

Context {WorkerID : Type} `{Countable WorkerID}.
Context {Client FactoryState : Type}.
Local Abbreviation Node := (ListIter * CoreWorkerClientEntry WorkerID Client)%type.
Local Abbreviation Pool := (CoreWorkerClientPool WorkerID Client FactoryState).

Lemma elem_of_list_ids (id : WorkerID) (l : list Node) :
  id ∈ list_ids l <-> exists it c, (it, mk_entry id c) ∈ l.
Proof.
  unfold list_ids. rewrite list_elem_of_fmap. split.
  - intros ([it [id' c]] & -> & Hin). by exists it, c.
  - intros (it & c & Hin). by exists (it, mk_entry id c).
Qed.

(** The invariant reads the list, the mapping and the allocator only. *)
Lemma pool_wf_ext (p q : Pool) :
  client_list_ q = client_list_ p ->
  client_map_ q = client_map_ p ->
  next_node_ q = next_node_ p ->
  pool_wf p -> pool_wf q.
Proof.
  intros Hl Hm Hn [H1 H2 H3 H4].
  split; rewrite ?Hl, ?Hm, ?Hn; auto.
Qed.

Lemma empty_pool_wf (fs : FactoryState) : pool_wf (empty_pool (WorkerID:=WorkerID) (Client:=Client) fs).
Proof.
  split; simpl.
  - constructor.
  - intros n Hn. by apply elem_of_nil in Hn.
  - intros id it. rewrite lookup_empty. split; [done|].
    intros (c & Hc). by apply elem_of_nil in Hc.
  - constructor.
Qed.

Lemma wf_map_ids (p : Pool) (id : WorkerID) :
  pool_wf p -> (is_Some (client_map_ p !! id) <-> id ∈ list_ids (client_list_ p)).
Proof.
  intros Hwf. rewrite elem_of_list_ids. split.
  - intros [it Hit]. apply (wf_map p Hwf) in Hit as [c Hc]. eauto.
  - intros (it & c & Hin). exists it. apply (wf_map p Hwf). eauto.
Qed.

(** Unlinking a node and erasing its id from the mapping. *)
Lemma wf_remove (p : Pool) (it : ListIter) (e : CoreWorkerClientEntry WorkerID Client) :
  pool_wf p -> (it, e) ∈ client_list_ p ->
  pool_wf (set_map (delete (worker_id e)) (set_list (list_erase it) p)).
Proof.
  intros Hwf Hin.
  destruct (list_erase_split it e _ (wf_handles p Hwf) Hin) as (l1 & l2 & Hl & Her & _).
  pose proof (wf_handles p Hwf) as Hh. pose proof (wf_ids p Hwf) as Hi.
  pose proof (wf_map p Hwf) as Hm. pose proof (wf_allocated p Hwf) as Ha.
  unfold list_ids in Hi. rewrite Hl in Hh, Hi, Hm, Ha.
  rewrite fmap_app, fmap_cons in Hh. rewrite fmap_app, fmap_cons in Hi.
  apply NoDup_app in Hh as (Hh1 & Hh12 & Hh2).
  apply NoDup_cons in Hh2 as [Hh2 Hh3].
  apply NoDup_app in Hi as (Hi1 & Hi12 & Hi2).
  apply NoDup_cons in Hi2 as [Hi2 Hi3]. simpl in *.
  split; simpl; rewrite Her.
  - rewrite fmap_app. apply NoDup_app. set_solver.
  - intros n Hn. apply Ha. set_solver.
  - intros id it'. destruct (decide (id = worker_id e)) as [->|Hne].
    + rewrite lookup_delete_eq. split; [done|].
      intros (c & Hc). exfalso. apply elem_of_app in Hc as [Hc|Hc].
      * apply (Hi12 (worker_id e)); [|left; done].
        apply list_elem_of_fmap. by exists (it', mk_entry (worker_id e) c).
      * apply Hi2. apply list_elem_of_fmap. by exists (it', mk_entry (worker_id e) c).
    + rewrite lookup_delete_ne by done. rewrite Hm.
      split; intros (c & Hc); exists c.
      * apply elem_of_app in Hc as [Hc|Hc]; [set_solver|].
        apply elem_of_cons in Hc as [Hc|Hc]; [|set_solver].
        inversion Hc; subst. done.
      * set_solver.
  - unfold list_ids. rewrite fmap_app. apply NoDup_app. set_solver.
Qed.

(** Linking a new node at the front for an id the mapping does not hold. *)
Lemma wf_emplace (p : Pool) (id : WorkerID) (c : Client) :
  pool_wf p -> client_map_ p !! id = None ->
  pool_wf (map_assign_begin id (emplace_front (mk_entry id c) p)).
Proof.
  intros Hwf Hnone.
  pose proof (wf_handles p Hwf) as Hh. pose proof (wf_ids p Hwf) as Hi.
  pose proof (wf_map p Hwf) as Hm. pose proof (wf_allocated p Hwf) as Ha.
  assert (id ∉ list_ids (client_list_ p)) as Hfresh.
  { rewrite <- (wf_map_ids p id Hwf), Hnone. by intros [? ?]. }
  unfold map_assign_begin, emplace_front; simpl.
  split; simpl.
  - apply NoDup_cons. split; [|done].
    intros Hin. apply list_elem_of_fmap in Hin as (n & Hn1 & Hn).
    apply Ha in Hn. unfold ListIter in *. rewrite Hn1 in Hn. lia.
  - intros n Hn. apply elem_of_cons in Hn as [->|Hn]; simpl; [lia|].
    apply Ha in Hn. lia.
  - intros id' it. destruct (decide (id' = id)) as [->|Hne].
    + rewrite lookup_insert_eq. split.
      * intros [= <-]. exists c. by left.
      * intros (c' & Hc'). apply elem_of_cons in Hc' as [Hc'|Hc'].
        { by inversion Hc'. }
        exfalso. apply Hfresh. apply elem_of_list_ids. eauto.
    + rewrite lookup_insert_ne by done. rewrite Hm.
      split; intros (c' & Hc'); exists c'.
      * by right.
      * apply elem_of_cons in Hc' as [Hc'|Hc']; [|done].
        inversion Hc'; congruence.
  - apply NoDup_cons. split; done.
Qed.

(** The specification's invariant follows from the representation
    invariant. *)
Lemma pool_wf_invariant (p : Pool) : pool_wf p -> pool_invariant p.
Proof.
  intros Hwf.
  assert (dom (client_map_ p) = list_to_set (list_ids (client_list_ p))) as Hdom.
  { apply set_eq. intros id.
    rewrite elem_of_dom, elem_of_list_to_set. by apply wf_map_ids. }
  split; [|split]; [|done|by apply wf_ids].
  rewrite <- size_dom, Hdom, size_list_to_set by (by apply wf_ids).
  unfold list_ids. by rewrite length_fmap.
Qed.

(** The three ways an operation changes the list and the mapping, for any
    state of the collaborators. *)
Lemma wf_after_remove (p q : Pool) (it : ListIter)
    (e : CoreWorkerClientEntry WorkerID Client) :
  pool_wf p -> (it, e) ∈ client_list_ p ->
  client_list_ q = list_erase it (client_list_ p) ->
  client_map_ q = delete (worker_id e) (client_map_ p) ->
  next_node_ q = next_node_ p ->
  pool_wf q.
Proof.
  intros Hwf Hin Hl Hm Hn.
  eapply pool_wf_ext; [..|exact (wf_remove p it e Hwf Hin)]; done.
Qed.

Lemma wf_after_emplace (p q : Pool) (id : WorkerID) (c : Client) :
  pool_wf p -> client_map_ p !! id = None ->
  client_list_ q = (next_node_ p, mk_entry id c) :: client_list_ p ->
  client_map_ q = <[id := next_node_ p]> (client_map_ p) ->
  next_node_ q = S (next_node_ p) ->
  pool_wf q.
Proof.
  intros Hwf Hnone Hl Hm Hn.
  eapply pool_wf_ext; [..|exact (wf_emplace p id c Hwf Hnone)]; done.
Qed.

Lemma wf_after_promote (p q : Pool) (it : ListIter)
    (e : CoreWorkerClientEntry WorkerID Client) :
  pool_wf p -> (it, e) ∈ client_list_ p ->
  client_list_ q = (next_node_ p, e) :: list_erase it (client_list_ p) ->
  client_map_ q = <[worker_id e := next_node_ p]> (client_map_ p) ->
  next_node_ q = S (next_node_ p) ->
  pool_wf q.
Proof.
  intros Hwf Hin Hl Hm Hn.
  pose proof (wf_remove p it e Hwf Hin) as Hwf'.
  destruct e as [id c].
  eapply (wf_after_emplace _ q id c Hwf'); simpl; try done.
  - apply lookup_delete_eq.
  - by rewrite insert_delete_eq.
Qed.

(** A worker id has one node and one client. *)
Lemma wf_entry_unique (p : Pool) (id : WorkerID) (it1 it2 : ListIter) (c1 c2 : Client) :
  pool_wf p ->
  (it1, mk_entry id c1) ∈ client_list_ p ->
  (it2, mk_entry id c2) ∈ client_list_ p ->
  it1 = it2 /\ c1 = c2.
Proof.
  intros Hwf H1 H2.
  assert (client_map_ p !! id = Some it1) as E1 by (apply (wf_map p Hwf); eauto).
  assert (client_map_ p !! id = Some it2) as E2 by (apply (wf_map p Hwf); eauto).
  assert (it1 = it2) as <- by congruence. split; [done|].
  destruct (list_erase_split it1 _ _ (wf_handles p Hwf) H1) as (_ & _ & _ & _ & D1).
  destruct (list_erase_split it1 _ _ (wf_handles p Hwf) H2) as (_ & _ & _ & _ & D2).
  congruence.
Qed.

(** Under the invariant, erasing the node the mapping gives for [id]
    takes away the nodes that hold [id] and no other. *)
Lemma list_erase_filter (p : Pool) (id : WorkerID) (it : ListIter) :
  pool_wf p -> client_map_ p !! id = Some it ->
  list_erase it (client_list_ p) =
  filter (fun n => worker_id n.2 <> id) (client_list_ p).
Proof.
  intros Hwf Hit.
  apply (wf_map p Hwf) in Hit as [c Hin].
  destruct (list_erase_split it _ _ (wf_handles p Hwf) Hin) as (l1 & l2 & Hl & Her & _).
  pose proof (wf_ids p Hwf) as Hi. unfold list_ids in Hi. rewrite Hl in Hi.
  rewrite fmap_app, fmap_cons in Hi.
  apply NoDup_app in Hi as (_ & Hi12 & Hi2).
  apply NoDup_cons in Hi2 as [Hi2 _]. simpl in *.
  rewrite Her, Hl, filter_app, filter_cons_False by (simpl; tauto).
  assert (forall l : list Node, id ∉ (fun n => worker_id n.2) <$> l ->
            filter (fun n => worker_id n.2 <> id) l = l) as Hid.
  { induction l as [|n l IH]; [done|]. rewrite fmap_cons, not_elem_of_cons.
    intros [Hne Hl']. rewrite filter_cons_True by done. by rewrite IH. }
  rewrite !Hid; [done|done|]. intros Hin1. by apply (Hi12 id); [|left].
Qed.

Lemma list_filter_absent (p : Pool) (id : WorkerID) :
  pool_wf p -> client_map_ p !! id = None ->
  filter (fun n => worker_id n.2 <> id) (client_list_ p) = client_list_ p.
Proof.
  intros Hwf Hnone.
  assert (id ∉ list_ids (client_list_ p)) as Hfresh.
  { rewrite <- (wf_map_ids p id Hwf), Hnone. by intros [? ?]. }
  revert Hfresh. unfold list_ids. generalize (client_list_ p).
  induction l as [|n l IH]; [done|]. rewrite fmap_cons, not_elem_of_cons.
  intros [Hne Hl']. rewrite filter_cons_True by done. by rewrite IH.
Qed.

End InvariantFacts.

(** ** The eviction walk *)

Section WalkFacts.

Context {WorkerID : Type} `{Countable WorkerID}.
Context {Client FactoryState : Type}.
Local Abbreviation Node := (ListIter * CoreWorkerClientEntry WorkerID Client)%type.
Local Abbreviation Pool := (CoreWorkerClientPool WorkerID Client FactoryState).

Implicit Types (p : Pool) (idle : Client -> bool).

(** The state after an iteration that found the last node [x] idle. *)
Local Abbreviation evicted x p :=
  (set_list pop_back
     (set_map (delete (worker_id x.2))
        (log_event (IsIdleAfterRPCs_called (core_worker_client x.2)) p))).

(** The state after the iteration that found the last node [x] busy. *)
Local Abbreviation promoted x p :=
  (map_assign_begin (worker_id x.2)
     (emplace_front x.2
        (set_list pop_back
           (log_event (IsIdleAfterRPCs_called (core_worker_client x.2)) p)))).

Lemma RemoveIdleClients_loop_empty idle fuel p :
  client_list_ p = [] -> RemoveIdleClients_loop idle fuel p = Ok tt p.
Proof. intros Hl. destruct fuel; simpl; by rewrite Hl. Qed.

Lemma RemoveIdleClients_loop_step idle fuel p l x :
  client_list_ p = l ++ [x] ->
  RemoveIdleClients_loop idle (S fuel) p =
    if idle (core_worker_client x.2)
    then RemoveIdleClients_loop idle fuel (evicted x p)
    else Ok tt (promoted x p).
Proof.
  intros Hl. simpl. rewrite Hl, last_snoc.
  unfold IsIdleAfterRPCs. unfold_M.
  by destruct (idle (core_worker_client x.2)).
Qed.

(** Induction along the iterations of the loop. *)
Lemma RemoveIdleClients_loop_ind idle (R : Pool -> Pool -> Prop) :
  (forall p, client_list_ p = [] -> R p p) ->
  (forall p l x p', client_list_ p = l ++ [x] ->
     idle (core_worker_client x.2) = true ->
     R (evicted x p) p' -> R p p') ->
  (forall p l x, client_list_ p = l ++ [x] ->
     idle (core_worker_client x.2) = false ->
     R p (promoted x p)) ->
  forall fuel p p', RemoveIdleClients_loop idle fuel p = Ok tt p' -> R p p'.
Proof.
  intros Hnil Hidle Hbusy. induction fuel as [|fuel IH]; intros p p' Hrun.
  - destruct (last_cases (client_list_ p)) as [[Hl _]|(l & x & Hl & Hlast)].
    + rewrite RemoveIdleClients_loop_empty in Hrun by done.
      inversion Hrun; subst. by apply Hnil.
    + simpl in Hrun. by rewrite Hlast in Hrun.
  - destruct (last_cases (client_list_ p)) as [[Hl _]|(l & x & Hl & Hlast)].
    + rewrite RemoveIdleClients_loop_empty in Hrun by done.
      inversion Hrun; subst. by apply Hnil.
    + rewrite (RemoveIdleClients_loop_step _ _ _ l x Hl) in Hrun.
      destruct (idle (core_worker_client x.2)) eqn:Hx.
      * eapply Hidle; eauto.
      * inversion Hrun; subst. eapply Hbusy; eauto.
Qed.

(** The loop agrees with the walk of the specification, given fuel for
    one iteration per node. *)
Lemma RemoveIdleClients_loop_spec idle fuel p :
  (length (client_list_ p) <= fuel)%nat ->
  RemoveIdleClients_loop idle fuel p = Ok tt (EvictionWalkSpec idle p).
Proof.
  revert p. induction fuel as [|fuel IH]; intros p Hlen.
  - destruct (client_list_ p) eqn:Hl; [|simpl in Hlen; lia].
    rewrite RemoveIdleClients_loop_empty by done.
    unfold EvictionWalkSpec. rewrite Hl. simpl. destruct p; simpl in *. by subst.
  - destruct (last_cases (client_list_ p)) as [[Hl _]|(l & x & Hl & Hlast)].
    + rewrite RemoveIdleClients_loop_empty by done.
      unfold EvictionWalkSpec. rewrite Hl. simpl. destruct p; simpl in *. by subst.
    + rewrite (RemoveIdleClients_loop_step _ _ _ l x Hl).
      unfold EvictionWalkSpec at 1. rewrite Hl, reverse_snoc. simpl.
      destruct (idle (core_worker_client x.2)) eqn:Hx.
      * rewrite IH.
        2:{ simpl. rewrite Hl, pop_back_snoc. rewrite Hl, length_app in Hlen.
            simpl in Hlen. lia. }
        f_equal. unfold EvictionWalkSpec. simpl. rewrite Hl, pop_back_snoc.
        destruct (walk_split idle (reverse l)) as [ev stop]. simpl.
        rewrite reverse_cons, <- app_assoc. simpl.
        by destruct stop as [[busy unreached]|].
      * unfold map_assign_begin, emplace_front. simpl.
        rewrite Hl, pop_back_snoc, reverse_involutive. done.
Qed.

Lemma RemoveIdleClients_spec idle p :
  RemoveIdleClients idle p = Ok tt (EvictionWalkSpec idle p).
Proof. unfold RemoveIdleClients. by apply RemoveIdleClients_loop_spec. Qed.

(** The loop is a relation between the pool before and the pool after. *)
Lemma RemoveIdleClients_ind idle (R : Pool -> Pool -> Prop) :
  (forall p, client_list_ p = [] -> R p p) ->
  (forall p l x p', client_list_ p = l ++ [x] ->
     idle (core_worker_client x.2) = true ->
     R (evicted x p) p' -> R p p') ->
  (forall p l x, client_list_ p = l ++ [x] ->
     idle (core_worker_client x.2) = false ->
     R p (promoted x p)) ->
  forall p, R p (EvictionWalkSpec idle p).
Proof.
  intros Hnil Hidle Hbusy p.
  eapply RemoveIdleClients_loop_ind; eauto. apply RemoveIdleClients_spec.
Qed.

(** The walk keeps the representation invariant. *)
Lemma EvictionWalk_wf idle p : pool_wf p -> pool_wf (EvictionWalkSpec idle p).
Proof.
  apply (RemoveIdleClients_ind idle (fun p p' => pool_wf p -> pool_wf p')).
  - done.
  - intros q l x p' Hl Hx IH Hwf. apply IH.
    assert (x ∈ client_list_ q) as Hin by (rewrite Hl; set_solver).
    destruct x as [it e].
    eapply (wf_after_remove q _ it e Hwf Hin); simpl; try done.
    rewrite Hl, pop_back_snoc. symmetry. apply (list_erase_snoc l (it, e)).
    rewrite <- Hl. by apply wf_handles.
  - intros q l x Hl Hx Hwf.
    assert (x ∈ client_list_ q) as Hin by (rewrite Hl; set_solver).
    destruct x as [it e].
    eapply (wf_after_promote q _ it e Hwf Hin); simpl; try done.
    rewrite Hl, pop_back_snoc. f_equal. symmetry. apply (list_erase_snoc l (it, e)).
    rewrite <- Hl. by apply wf_handles.
Qed.

(** The walk adds no worker id. *)
Lemma EvictionWalk_ids idle p id :
  id ∈ list_ids (client_list_ (EvictionWalkSpec idle p)) ->
  id ∈ list_ids (client_list_ p).
Proof.
  revert id.
  apply (RemoveIdleClients_ind idle (fun p p' => forall id,
    id ∈ list_ids (client_list_ p') -> id ∈ list_ids (client_list_ p))).
  - done.
  - intros q l x p' Hl Hx IH id Hid. apply IH in Hid. simpl in Hid.
    rewrite Hl, pop_back_snoc in Hid. rewrite Hl. unfold list_ids in *.
    rewrite fmap_app. set_solver.
  - intros q l x Hl Hx id. simpl. rewrite Hl, pop_back_snoc. unfold list_ids.
    rewrite fmap_app. set_solver.
Qed.

(** The walk does not touch the factory. *)
Lemma EvictionWalk_factory idle p :
  factory_state_ (EvictionWalkSpec idle p) = factory_state_ p /\
  factory_calls (trace_ (EvictionWalkSpec idle p)) = factory_calls (trace_ p).
Proof.
  apply (RemoveIdleClients_ind idle (fun p p' =>
    factory_state_ p' = factory_state_ p /\
    factory_calls (trace_ p') = factory_calls (trace_ p))).
  - done.
  - intros q l x p' Hl Hx IH. done.
  - intros q l x Hl Hx. unfold map_assign_begin. simpl. done.
Qed.

(** When some pooled client is busy, the walk stops before it could
    remove the entry at the front. *)
Lemma EvictionWalk_front idle p n rest :
  client_list_ p = n :: rest ->
  Exists (fun m => idle (core_worker_client m.2) = false) (client_list_ p) ->
  n.2 ∈ list_entries (client_list_ (EvictionWalkSpec idle p)).
Proof.
  revert n rest.
  apply (RemoveIdleClients_ind idle (fun p p' => forall n rest,
    client_list_ p = n :: rest ->
    Exists (fun m => idle (core_worker_client m.2) = false) (client_list_ p) ->
    n.2 ∈ list_entries (client_list_ p'))).
  - intros q Hq n rest Hl. congruence.
  - intros q l x p' Hl Hx IH n rest Hn Hex.
    rewrite Hl in Hex. apply Exists_app in Hex as [Hex|Hex].
    + destruct l as [|n' l]; [by apply Exists_nil in Hex|].
      rewrite Hl in Hn. injection Hn as -> _.
      apply (IH n l); simpl; rewrite Hl, pop_back_snoc; done.
    + apply Exists_cons in Hex as [Hex|Hex]; [congruence|].
      by apply Exists_nil in Hex.
  - intros q l x Hl Hx n rest Hn _. unfold map_assign_begin. simpl.
    rewrite Hl, pop_back_snoc. rewrite Hl in Hn. unfold list_entries.
    destruct l as [|n' l]; simpl in Hn; injection Hn as -> _; set_solver.
Qed.

End WalkFacts.

(** ** [GetOrConnect] and [Disconnect] *)

Section OperationFacts.

Context {WorkerID : Type} `{Countable WorkerID}.
Context {Client FactoryState : Type}.
Variable WorkerID_FromBinary : string -> WorkerID.
Variable core_worker_client_factory_ :
  Address.t -> FactoryState -> Client * FactoryState.

Local Abbreviation Node := (ListIter * CoreWorkerClientEntry WorkerID Client)%type.
Local Abbreviation Pool := (CoreWorkerClientPool WorkerID Client FactoryState).
Local Abbreviation get_or_connect :=
  (GetOrConnect WorkerID_FromBinary core_worker_client_factory_).
Local Abbreviation run := (run_ops WorkerID_FromBinary core_worker_client_factory_).
Local Abbreviation run1 := (run_op WorkerID_FromBinary core_worker_client_factory_).

Implicit Types (p : Pool) (idle : Client -> bool) (addr : Address.t).

Lemma GetOrConnect_empty_id idle addr p :
  Address.worker_id addr = EmptyString ->
  get_or_connect idle addr p = Fatal (CheckFailed "RAY_CHECK_NE").
Proof.
  intros Heq. unfold GetOrConnect, RAY_CHECK_NE. unfold_M.
  by rewrite decide_True.
Qed.

(** The two branches of [GetOrConnect] after the walk. *)
Lemma GetOrConnect_cases idle addr p :
  Address.worker_id addr <> EmptyString -> pool_wf p ->
  let p1 := EvictionWalkSpec idle p in
  let id := WorkerID_FromBinary (Address.worker_id addr) in
  (exists it c,
      client_map_ p1 !! id = Some it /\
      (it, mk_entry id c) ∈ client_list_ p1 /\
      get_or_connect idle addr p =
        Ok c (mk_pool ((next_node_ p1, mk_entry id c) :: list_erase it (client_list_ p1))
                      (<[id := next_node_ p1]> (client_map_ p1))
                      (S (next_node_ p1)) (factory_state_ p1) (trace_ p1)))
  \/
  (client_map_ p1 !! id = None /\
   get_or_connect idle addr p =
     Ok (core_worker_client_factory_ addr (factory_state_ p1)).1
        (mk_pool ((next_node_ p1,
                   mk_entry id (core_worker_client_factory_ addr (factory_state_ p1)).1)
                    :: client_list_ p1)
                 (<[id := next_node_ p1]> (client_map_ p1))
                 (S (next_node_ p1))
                 (core_worker_client_factory_ addr (factory_state_ p1)).2
                 (factory_called addr :: trace_ p1))).
Proof.
  intros Hne Hwf p1 id.
  pose proof (EvictionWalk_wf idle p Hwf) as Hwf1. fold p1 in Hwf1.
  unfold GetOrConnect, RAY_CHECK_NE. unfold_M.
  rewrite decide_False by done. simpl.
  rewrite RemoveIdleClients_spec. fold p1. fold id.
  destruct (client_map_ p1 !! id) as [it|] eqn:Hit.
  - left. pose proof Hit as Hin. apply (wf_map p1 Hwf1) in Hin as [c Hin].
    exists it, c. split; [done|]. split; [done|].
    destruct (list_erase_split it _ _ (wf_handles p1 Hwf1) Hin) as (_ & _ & _ & _ & ->).
    done.
  - right. split; [done|]. unfold call_factory.
    destruct (core_worker_client_factory_ addr (factory_state_ p1)) as [c fs]. done.
Qed.

(** [GetOrConnect] on a non-empty worker id returns, keeps the invariant
    and leaves the entry of that id, with the client it returns, at the
    front. *)
Lemma GetOrConnect_ok idle addr p :
  Address.worker_id addr <> EmptyString -> pool_wf p ->
  exists c p' it rest,
    get_or_connect idle addr p = Ok c p' /\
    pool_wf p' /\
    client_list_ p' =
      (it, mk_entry (WorkerID_FromBinary (Address.worker_id addr)) c) :: rest /\
    client_map_ p' !! WorkerID_FromBinary (Address.worker_id addr) = Some it.
Proof.
  intros Hne Hwf.
  pose proof (EvictionWalk_wf idle p Hwf) as Hwf1.
  destruct (GetOrConnect_cases idle addr p Hne Hwf)
    as [(it & c & Hit & Hin & ->)|(Hnone & ->)].
  - eexists _, _, _, _. split; [done|]. split; [|split; [done|]].
    + eapply (wf_after_promote _ _ it _ Hwf1 Hin); done.
    + simpl. apply lookup_insert_eq.
  - eexists _, _, _, _. split; [done|]. split; [|split; [done|]].
    + eapply (wf_after_emplace _ _ _ _ Hwf1 Hnone); done.
    + simpl. apply lookup_insert_eq.
Qed.

(** What [Disconnect] computes. *)
Lemma Disconnect_eq (id : WorkerID) p :
  Disconnect id p =
  Ok tt match client_map_ p !! id with
        | None => p
        | Some it => set_map (delete id) (set_list (list_erase it) p)
        end.
Proof.
  unfold Disconnect. unfold_M. by destruct (client_map_ p !! id).
Qed.

Lemma Disconnect_wf (id : WorkerID) p p' :
  pool_wf p -> Disconnect id p = Ok tt p' -> pool_wf p'.
Proof.
  intros Hwf. rewrite Disconnect_eq. intros [= <-].
  destruct (client_map_ p !! id) as [it|] eqn:Hit; [|done].
  apply (wf_map p Hwf) in Hit as [c Hin].
  exact (wf_remove p it (mk_entry id c) Hwf Hin).
Qed.

Lemma run_op_wf (op : PoolOp WorkerID Client) p p' :
  pool_wf p -> run1 op p = Ok tt p' -> pool_wf p'.
Proof.
  intros Hwf. destruct op as [idle addr|id]; simpl.
  - destruct (decide (Address.worker_id addr = EmptyString)) as [He|Hne].
    + unfold_M. by rewrite GetOrConnect_empty_id.
    + destruct (GetOrConnect_ok idle addr p Hne Hwf) as (c & q & it & rest & Hrun & Hq & _).
      unfold_M. rewrite Hrun. by intros [= <-].
  - by apply Disconnect_wf.
Qed.

Lemma run_ops_wf (ops : list (PoolOp WorkerID Client)) p p' :
  pool_wf p -> run ops p = Ok tt p' -> pool_wf p'.
Proof.
  revert p. induction ops as [|op ops IH]; intros p Hwf; simpl.
  - unfold_M. by intros [= <-].
  - unfold_M. destruct (run1 op p) as [[] q|f] eqn:Hop; [|done].
    intros Hrun. eapply IH; [|exact Hrun]. by eapply run_op_wf.
Qed.

End OperationFacts.

(* ===================================================================== *)
(** * Properties of the specification                                     *)
(* ===================================================================== *)

(** ** Bounded executor *)

Lemma PostAll_pending {Closure : Type} (fns : list Closure) (e : BoundedExecutor.t Closure) :
  BoundedExecutor.executing (BoundedExecutor.pool_ (BoundedExecutor.PostAll fns e)) =
    BoundedExecutor.executing (BoundedExecutor.pool_ e) /\
  BoundedExecutor.num_threads (BoundedExecutor.pool_ (BoundedExecutor.PostAll fns e)) =
    BoundedExecutor.num_threads (BoundedExecutor.pool_ e) /\
  BoundedExecutor.pending (BoundedExecutor.pool_ (BoundedExecutor.PostAll fns e)) =
    BoundedExecutor.pending (BoundedExecutor.pool_ e) ++ fns.
Proof.
  revert e. induction fns as [|fn fns IH]; intros e; simpl.
  - by rewrite app_nil_r.
  - destruct (IH (BoundedExecutor.Post fn e)) as (-> & -> & ->). simpl.
    by rewrite <- app_assoc.
Qed.

(** C1 (as the code behaves): on [BoundedExecutor(2)] with both slots
    occupied by running closures, [Post] of a third closure returns at once
    with the closure queued, both slots still occupied and no thread free to
    take it; and however many closures the caller posts in that state, all
    of them are queued: the queue behind the pool has no bound. *)
Theorem Post_does_not_block_when_saturated :
  BoundedExecutor.saturated Fixture.executor_two_running /\
  BoundedExecutor.pool_ (BoundedExecutor.Post 3%nat Fixture.executor_two_running) =
    BoundedExecutor.mk_thread_pool 2 [1; 2]%nat [3%nat] /\
  BoundedExecutor.dispatch
    (BoundedExecutor.pool_ (BoundedExecutor.Post 3%nat Fixture.executor_two_running)) = None /\
  forall fns : list nat,
    BoundedExecutor.saturated (BoundedExecutor.PostAll fns Fixture.executor_two_running) /\
    length (BoundedExecutor.pending
              (BoundedExecutor.pool_
                 (BoundedExecutor.PostAll fns Fixture.executor_two_running))) = length fns.
Proof.
  split; [reflexivity|]. split; [reflexivity|]. split; [reflexivity|].
  intros fns. unfold BoundedExecutor.saturated.
  destruct (PostAll_pending fns Fixture.executor_two_running) as (-> & -> & ->).
  split; reflexivity.
Qed.

(** C5 (as stated, refuted): [NeedDefaultExecutor] also returns false for
    a default group of concurrency 1 with no other group, so "false iff the
    argument is 0" fails from right to left. *)
Lemma NeedDefaultExecutor_false_without_zero :
  ~ (forall (max_concurrency_in_default_group : Z) (has_other_concurrency_groups : bool),
       BoundedExecutor.NeedDefaultExecutor max_concurrency_in_default_group
                                           has_other_concurrency_groups = false
       <-> max_concurrency_in_default_group = 0).
Proof.
  intros Hclaim. specialize (Hclaim 1 false). destruct Hclaim as [Hzero _].
  discriminate (Hzero eq_refl).
Qed.

(** C5 (amended): [NeedDefaultExecutor] returns false when
    [max_concurrency_in_default_group] is 0, and otherwise returns true iff
    [max_concurrency_in_default_group > 1] or another concurrency group
    exists. *)
Theorem NeedDefaultExecutor_cases (max_concurrency_in_default_group : Z)
    (has_other_concurrency_groups : bool) :
  (max_concurrency_in_default_group = 0 ->
   BoundedExecutor.NeedDefaultExecutor max_concurrency_in_default_group
                                       has_other_concurrency_groups = false) /\
  (max_concurrency_in_default_group <> 0 ->
   (BoundedExecutor.NeedDefaultExecutor max_concurrency_in_default_group
                                        has_other_concurrency_groups = true
    <-> (max_concurrency_in_default_group > 1 \/ has_other_concurrency_groups = true))).
Proof.
  unfold BoundedExecutor.NeedDefaultExecutor. split.
  - intros ->. reflexivity.
  - intros Hne. destruct (Z.eqb_spec max_concurrency_in_default_group 0); [done|].
    rewrite orb_true_iff, Z.gtb_gt. reflexivity.
Qed.

(** [NeedDefaultExecutor_cases] at 0 with other groups and at 4 without. *)
Lemma NeedDefaultExecutor_cases_witness :
  BoundedExecutor.NeedDefaultExecutor 0 true = false /\
  BoundedExecutor.NeedDefaultExecutor 4 false = true.
Proof.
  split.
  - apply (proj1 (NeedDefaultExecutor_cases 0 true)). reflexivity.
  - apply (proj2 (NeedDefaultExecutor_cases 4 false)); [lia|]. left. lia.
Defined.

(** ** Client pool *)

Section PoolClaims.

Context {WorkerID : Type} `{Countable WorkerID}.
Context {Client FactoryState : Type}.
Variable WorkerID_FromBinary : string -> WorkerID.
Variable core_worker_client_factory_ :
  Address.t -> FactoryState -> Client * FactoryState.

Local Abbreviation Node := (ListIter * CoreWorkerClientEntry WorkerID Client)%type.
Local Abbreviation Pool := (CoreWorkerClientPool WorkerID Client FactoryState).
Local Abbreviation get_or_connect :=
  (GetOrConnect WorkerID_FromBinary core_worker_client_factory_).
Local Abbreviation run := (run_ops WorkerID_FromBinary core_worker_client_factory_).
Local Abbreviation run1 := (run_op WorkerID_FromBinary core_worker_client_factory_).
Local Abbreviation from_binary addr := (WorkerID_FromBinary (Address.worker_id addr)).

Implicit Types (p : Pool) (idle : Client -> bool) (addr : Address.t).

(** The candidates the walk removes are idle and are met first; where it
    stops, the candidate is busy and comes right after them. *)
Lemma walk_split_from_back idle (from_back : list Node) :
  Forall (fun n => idle (core_worker_client n.2) = true) (walk_split idle from_back).1 /\
  match (walk_split idle from_back).2 with
  | None => from_back = (walk_split idle from_back).1
  | Some (busy, unreached) =>
      idle (core_worker_client busy.2) = false /\
      from_back = (walk_split idle from_back).1 ++ busy :: unreached
  end.
Proof.
  induction from_back as [|n l [IH1 IH2]]; simpl; [done|].
  destruct (idle (core_worker_client n.2)) eqn:Hn.
  - destruct (walk_split idle l) as [ev stop]. simpl in *.
    split; [by constructor|].
    destruct stop as [[busy unreached]|].
    + destruct IH2 as [Hb Hl]. split; [done|]. by rewrite Hl at 1.
    + by rewrite IH2 at 1.
  - simpl. split; [constructor|]. by split.
Qed.

(** The same, read on the sequence front to back. *)
Lemma walk_split_sound idle (l : list Node) :
  Forall (fun n => idle (core_worker_client n.2) = true) (walk_split idle (reverse l)).1 /\
  match (walk_split idle (reverse l)).2 with
  | None => l = reverse (walk_split idle (reverse l)).1
  | Some (busy, unreached) =>
      idle (core_worker_client busy.2) = false /\
      l = reverse unreached ++ busy :: reverse (walk_split idle (reverse l)).1
  end.
Proof.
  destruct (walk_split_from_back idle (reverse l)) as [Hev Hstop].
  split; [done|].
  destruct (walk_split idle (reverse l)) as [ev [[busy unreached]|]]; simpl in *.
  - destruct Hstop as [Hb Hl]. split; [done|].
    apply (f_equal reverse) in Hl. rewrite reverse_involutive in Hl.
    by rewrite Hl, reverse_app, reverse_cons, <- app_assoc.
  - apply (f_equal reverse) in Hstop. by rewrite reverse_involutive in Hstop.
Qed.

(** C2: [RemoveIdleClients] returns, and the pool it leaves is the one the
    walk of the specification leaves: scanning from the back, every idle
    candidate is removed from the mapping and from the sequence, and the
    first busy candidate is taken from the back and put at the front,
    where the walk stops. The removed candidates are exactly the idle
    ones at the back of the sequence. *)
Theorem RemoveIdleClients_walks_from_back idle p :
  RemoveIdleClients idle p = Ok tt (EvictionWalkSpec idle p) /\
  Forall (fun n => idle (core_worker_client n.2) = true)
         (walk_split idle (reverse (client_list_ p))).1 /\
  match (walk_split idle (reverse (client_list_ p))).2 with
  | None => client_list_ p = reverse (walk_split idle (reverse (client_list_ p))).1
  | Some (busy, unreached) =>
      idle (core_worker_client busy.2) = false /\
      client_list_ p =
        reverse unreached ++ busy :: reverse (walk_split idle (reverse (client_list_ p))).1
  end.
Proof.
  split; [apply RemoveIdleClients_spec|apply walk_split_sound].
Qed.

(** What [GetOrConnect] does to the factory's call count. *)
Lemma GetOrConnect_factory_calls idle addr p c p' :
  pool_wf p -> get_or_connect idle addr p = Ok c p' ->
  (factory_calls (trace_ p') <= S (factory_calls (trace_ p)))%nat /\
  (client_map_ p !! from_binary addr = None ->
   factory_calls (trace_ p') = S (factory_calls (trace_ p))).
Proof.
  intros Hwf Hrun.
  destruct (decide (Address.worker_id addr = EmptyString)) as [He|Hne].
  { by rewrite GetOrConnect_empty_id in Hrun. }
  destruct (EvictionWalk_factory (FactoryState:=FactoryState) idle p) as [_ Hcalls].
  destruct (GetOrConnect_cases WorkerID_FromBinary core_worker_client_factory_
              idle addr p Hne Hwf)
    as [(it & c' & Hit & Hin & Heq)|(Hnone & Heq)];
    rewrite Heq in Hrun; inversion Hrun; subst; simpl.
  - rewrite Hcalls. split; [lia|]. intros Hnone. exfalso.
    assert (from_binary addr ∈ list_ids (client_list_ (EvictionWalkSpec idle p))) as Hid.
    { apply elem_of_list_ids. eauto. }
    apply EvictionWalk_ids in Hid. apply (wf_map_ids p _ Hwf) in Hid as [? ?]. congruence.
  - unfold factory_calls in *. simpl. rewrite Hcalls. split; [lia|done].
Qed.

(** C4 (amended): for an address with a non-empty worker id, in
    [GetOrConnect(a); GetOrConnect(a)] with no pool operation in between,
    when the walk of the second call does not evict the entry of [a] (some
    pooled client answers [IsIdleAfterRPCs] with false at the second
    call), the second call does not invoke the factory and returns the
    client instance the first call returned; over the two calls the
    factory is invoked at most once, and exactly once when the pool held
    no entry for [a] before the first call. *)
Theorem GetOrConnect_twice_same_client idle1 idle2 addr p c1 p1 :
  pool_wf p ->
  get_or_connect idle1 addr p = Ok c1 p1 ->
  Exists (fun n => idle2 (core_worker_client n.2) = false) (client_list_ p1) ->
  exists p2,
    get_or_connect idle2 addr p1 = Ok c1 p2 /\
    factory_calls (trace_ p2) = factory_calls (trace_ p1) /\
    (factory_calls (trace_ p2) <= S (factory_calls (trace_ p)))%nat /\
    (client_map_ p !! from_binary addr = None ->
     factory_calls (trace_ p2) = S (factory_calls (trace_ p))).
Proof.
  intros Hwf Hrun1 Hbusy.
  destruct (decide (Address.worker_id addr = EmptyString)) as [He|Hne].
  { by rewrite GetOrConnect_empty_id in Hrun1. }
  destruct (GetOrConnect_factory_calls idle1 addr p c1 p1 Hwf Hrun1) as [Hle Hnew].
  destruct (GetOrConnect_ok WorkerID_FromBinary core_worker_client_factory_
              idle1 addr p Hne Hwf) as (c & q & it & rest & Hrun & Hwf1 & Hl1 & Hm1).
  rewrite Hrun in Hrun1. inversion Hrun1; subst c q. clear Hrun1.
  pose proof (EvictionWalk_wf idle2 p1 Hwf1) as Hwf1'.
  pose proof (EvictionWalk_front idle2 p1 _ _ Hl1 Hbusy) as Hfront. simpl in Hfront.
  apply list_elem_of_fmap in Hfront as ([it' e'] & He' & Hin'). simpl in He'. subst e'.
  destruct (EvictionWalk_factory (FactoryState:=FactoryState) idle2 p1) as [_ Hcalls].
  destruct (GetOrConnect_cases WorkerID_FromBinary core_worker_client_factory_
              idle2 addr p1 Hne Hwf1)
    as [(it2 & c2 & Hit2 & Hin2 & Heq)|(Hnone & Heq)].
  - destruct (wf_entry_unique _ _ _ _ _ _ Hwf1' Hin' Hin2) as [_ <-].
    eexists. split; [exact Heq|]. simpl. rewrite Hcalls.
    split; [done|]. split; [done|]. done.
  - exfalso. assert (client_map_ (EvictionWalkSpec idle2 p1) !! from_binary addr = Some it')
      as Hsome by (apply (wf_map _ Hwf1'); eauto).
    congruence.
Qed.

(** C6: after every sequence of [GetOrConnect] and [Disconnect] calls on a
    new pool that runs to its end, the mapping and the sequence have the
    same number of entries, the keys of the mapping are the worker ids of
    the sequence, and no worker id occurs twice in the sequence. *)
Theorem pool_invariant_after_run (ops : list (PoolOp WorkerID Client))
    (fs : FactoryState) p :
  run ops (empty_pool fs) = Ok tt p -> pool_invariant p.
Proof.
  intros Hrun. apply pool_wf_invariant.
  eapply run_ops_wf; [|exact Hrun]. apply empty_pool_wf.
Qed.

Lemma elem_of_list_erase (it : ListIter) (n : Node) (l : list Node) :
  n ∈ list_erase it l -> n ∈ l.
Proof.
  induction l as [|m l IH]; simpl; [done|].
  destruct (decide (m.1 = it)); set_solver.
Qed.

Lemma has_entry_wf (id : WorkerID) p :
  pool_wf p -> (has_entry id p <-> id ∈ list_ids (client_list_ p)).
Proof.
  intros Hwf. unfold has_entry. rewrite elem_of_dom, (wf_map_ids p id Hwf). tauto.
Qed.

(** Only a [GetOrConnect] for [w] brings an entry for [w] into the pool. *)
Lemma run_op_no_entry (w : WorkerID) (op : PoolOp WorkerID Client) p p' :
  pool_wf p -> w ∉ list_ids (client_list_ p) ->
  no_GetOrConnect_for WorkerID_FromBinary w [op] ->
  run1 op p = Ok tt p' ->
  w ∉ list_ids (client_list_ p').
Proof.
  intros Hwf Hnot Hop Hrun.
  unfold no_GetOrConnect_for in Hop. rewrite Forall_singleton in Hop.
  destruct op as [idle addr|id]; simpl in *.
  - destruct (decide (Address.worker_id addr = EmptyString)) as [He|Hne].
    { unfold_M. by rewrite GetOrConnect_empty_id in Hrun. }
    assert (forall n, n ∈ client_list_ (EvictionWalkSpec idle p) -> worker_id n.2 <> w)
      as Hwalk.
    { intros n Hn Heq. apply Hnot. apply (EvictionWalk_ids idle).
      apply elem_of_list_ids. exists n.1, (core_worker_client n.2).
      destruct n as [it [id c]]. simpl in *. by subst. }
    unfold_M.
    destruct (GetOrConnect_cases WorkerID_FromBinary core_worker_client_factory_
                idle addr p Hne Hwf)
      as [(it & c & Hit & Hin & Heq)|(Hnone & Heq)];
      rewrite Heq in Hrun; inversion Hrun; subst p'; cbn [client_list_];
      rewrite elem_of_list_ids; intros (it' & c' & Hin');
      apply elem_of_cons in Hin' as [Hin'|Hin'].
    + inversion Hin'. congruence.
    + apply elem_of_list_erase in Hin'. by apply Hwalk in Hin'.
    + inversion Hin'. congruence.
    + by apply Hwalk in Hin'.
  - rewrite Disconnect_eq in Hrun. inversion Hrun; subst p'.
    destruct (client_map_ p !! id); [|done]. cbn [client_list_ set_map set_list].
    rewrite elem_of_list_ids. intros (it' & c' & Hin').
    apply elem_of_list_erase in Hin'. apply Hnot. apply elem_of_list_ids. eauto.
Qed.

Lemma run_ops_no_entry (w : WorkerID) (ops : list (PoolOp WorkerID Client)) p p' :
  pool_wf p -> w ∉ list_ids (client_list_ p) ->
  no_GetOrConnect_for WorkerID_FromBinary w ops ->
  run ops p = Ok tt p' ->
  w ∉ list_ids (client_list_ p').
Proof.
  revert p. induction ops as [|op ops IH]; intros p Hwf Hnot Hops; simpl.
  - unfold_M. by intros [= <-].
  - unfold_M. destruct (run1 op p) as [[] q|f] eqn:Hop; [|done].
    apply Forall_cons in Hops as [Hop1 Hops]. intros Hrun.
    apply (IH q); [by eapply run_op_wf| |done|done].
    eapply run_op_no_entry; eauto.
    unfold no_GetOrConnect_for. by rewrite Forall_singleton.
Qed.

(** What [Disconnect] leaves, under the invariant. *)
Lemma Disconnect_wf_eq (w : WorkerID) p :
  pool_wf p ->
  Disconnect w p =
  Ok tt (mk_pool (filter (fun n => worker_id n.2 <> w) (client_list_ p))
                 (delete w (client_map_ p))
                 (next_node_ p) (factory_state_ p) (trace_ p)).
Proof.
  intros Hwf. rewrite Disconnect_eq. f_equal.
  destruct (client_map_ p !! w) as [it|] eqn:Hit.
  - unfold set_map, set_list. simpl. by rewrite (list_erase_filter p w it).
  - rewrite list_filter_absent by done. rewrite delete_id by done.
    by destruct p.
Qed.

(** C7: [Disconnect(w)] returns the pool as it is when the pool has no
    entry for [w]; otherwise the pool it leaves has no entry for [w] in the
    mapping nor in the sequence. A second [Disconnect(w)] leaves the pool
    of the first, and no run of operations without a [GetOrConnect] for [w]
    brings an entry for [w] back. *)
Theorem Disconnect_idempotent (w : WorkerID) p :
  pool_wf p ->
  (~ has_entry w p -> Disconnect w p = Ok tt p) /\
  exists p1,
    Disconnect w p = Ok tt p1 /\
    ~ has_entry w p1 /\
    (Disconnect w;; Disconnect w) p = Ok tt p1 /\
    forall (ops : list (PoolOp WorkerID Client)) p2,
      no_GetOrConnect_for WorkerID_FromBinary w ops ->
      run ops p1 = Ok tt p2 ->
      ~ has_entry w p2.
Proof.
  intros Hwf. split.
  - intros Hno. rewrite Disconnect_eq.
    destruct (client_map_ p !! w) as [it|] eqn:Hit; [|done].
    exfalso. apply Hno. left. apply elem_of_dom. eauto.
  - destruct (Disconnect w p) as [[] p1|f] eqn:Hd;
      [|by rewrite Disconnect_eq in Hd].
    pose proof (Disconnect_wf w p p1 Hwf Hd) as Hwf1.
    assert (client_map_ p1 !! w = None) as Hnone.
    { rewrite Disconnect_eq in Hd. inversion Hd; subst p1.
      destruct (client_map_ p !! w) eqn:Hit; [|done]. simpl. apply lookup_delete_eq. }
    assert (w ∉ list_ids (client_list_ p1)) as Hnot.
    { rewrite <- (wf_map_ids p1 w Hwf1), Hnone. by intros [? ?]. }
    exists p1. split; [done|]. split; [by rewrite has_entry_wf|]. split.
    + unfold_M. rewrite Hd. rewrite Disconnect_eq. by rewrite Hnone.
    + intros ops p2 Hops Hrun.
      rewrite has_entry_wf by (by eapply run_ops_wf).
      eapply run_ops_no_entry; eauto.
Qed.

(** C10: under the invariant [Disconnect(w)] returns and leaves the
    sequence without the node of [w], every other node in place and in
    order with its entry and its client, the mapping without the key [w]
    and otherwise as it was, and the trace of calls to [IsIdleAfterRPCs]
    and to the factory as it was. *)
Theorem Disconnect_frame (w : WorkerID) p :
  pool_wf p ->
  exists p',
    Disconnect w p = Ok tt p' /\
    client_list_ p' = filter (fun n => worker_id n.2 <> w) (client_list_ p) /\
    client_map_ p' = delete w (client_map_ p) /\
    (forall n, n ∈ client_list_ p -> worker_id n.2 <> w -> n ∈ client_list_ p') /\
    trace_ p' = trace_ p /\
    idle_queries (trace_ p') = idle_queries (trace_ p) /\
    factory_state_ p' = factory_state_ p /\
    next_node_ p' = next_node_ p.
Proof.
  intros Hwf. eexists. split; [by apply Disconnect_wf_eq|]. simpl.
  repeat split; try done.
  intros n Hn Hne. by apply list_elem_of_filter.
Qed.

(** C9: [GetOrConnect] aborts on the check of the worker id when the
    address has the empty worker id; when the worker id is not empty, on a
    pool that satisfies its invariant, it returns a client, the client of
    the entry it leaves at the front for that worker id. *)
Theorem GetOrConnect_requires_worker_id idle addr p :
  (Address.worker_id addr = EmptyString ->
   get_or_connect idle addr p = Fatal (CheckFailed "RAY_CHECK_NE")) /\
  (Address.worker_id addr <> EmptyString -> pool_wf p ->
   exists c p',
     get_or_connect idle addr p = Ok c p' /\
     head (list_entries (client_list_ p')) = Some (mk_entry (from_binary addr) c)).
Proof.
  split.
  - apply GetOrConnect_empty_id.
  - intros Hne Hwf.
    destruct (GetOrConnect_ok WorkerID_FromBinary core_worker_client_factory_
                idle addr p Hne Hwf) as (c & p' & it & rest & Hrun & _ & Hl & _).
    exists c, p'. split; [done|]. by rewrite Hl.
Qed.

(** C8: from a pool whose sequence is w3, w2, w1 front to back, with the
    client of w1 idle and the client of w2 busy, [GetOrConnect] for a fourth
    worker returns a client newly built by the factory and leaves the
    sequence w4, w2, w3: w1 is evicted, w2 is promoted and kept, w3 is
    kept, and w4 is at the front. *)
Theorem GetOrConnect_walks_past_busy idle addr p (n3 n2 n1 : Node) :
  pool_wf p ->
  client_list_ p = [n3; n2; n1] ->
  idle (core_worker_client n1.2) = true ->
  idle (core_worker_client n2.2) = false ->
  Address.worker_id addr <> EmptyString ->
  from_binary addr ∉ [worker_id n1.2; worker_id n2.2; worker_id n3.2] ->
  exists c p',
    get_or_connect idle addr p = Ok c p' /\
    list_entries (client_list_ p') = [mk_entry (from_binary addr) c; n2.2; n3.2] /\
    dom (client_map_ p') =
      list_to_set [from_binary addr; worker_id n2.2; worker_id n3.2] /\
    ~ has_entry (worker_id n1.2) p' /\
    c = (core_worker_client_factory_ addr (factory_state_ p)).1 /\
    factory_calls (trace_ p') = S (factory_calls (trace_ p)).
Proof.
  intros Hwf Hl H1 H2 Hne Hnotin.
  destruct (GetOrConnect_ok WorkerID_FromBinary core_worker_client_factory_
              idle addr p Hne Hwf) as (c & p' & it & rest & Hrun & Hwf' & _ & _).
  pose proof (wf_ids p Hwf) as Hids. rewrite Hl in Hids. unfold list_ids in Hids.
  cbn in Hids. apply NoDup_cons in Hids as [Hn3 Hids].
  apply NoDup_cons in Hids as [Hn2 _].
  assert (EvictionWalkSpec idle p =
          mk_pool [(next_node_ p, n2.2); n3]
                  (<[worker_id n2.2 := next_node_ p]>
                     (delete (worker_id n1.2) (client_map_ p)))
                  (S (next_node_ p)) (factory_state_ p)
                  (IsIdleAfterRPCs_called (core_worker_client n2.2)
                     :: IsIdleAfterRPCs_called (core_worker_client n1.2) :: trace_ p))
    as Hwalk.
  { unfold EvictionWalkSpec. rewrite Hl. cbn. rewrite H1. cbn. rewrite H2. reflexivity. }
  destruct (GetOrConnect_cases WorkerID_FromBinary core_worker_client_factory_
              idle addr p Hne Hwf)
    as [(it2 & c2 & Hit2 & Hin2 & Heq)|(Hnone & Heq)]; rewrite Hwalk in *;
    cbn [client_list_ client_map_ next_node_ factory_state_ trace_] in *.
  - exfalso. apply Hnotin. cbn in Hin2.
    apply elem_of_cons in Hin2 as [Hin2|Hin2].
    + destruct n2 as [? [? ?]]. inversion Hin2; subst. set_solver.
    + apply list_elem_of_singleton in Hin2.
      destruct n3 as [? [? ?]]. inversion Hin2; subst. set_solver.
  - rewrite Heq in Hrun. inversion Hrun; subst c p'. clear Hrun.
    eexists _, _. split; [exact Heq|]. cbn [client_list_ client_map_ trace_ factory_state_].
    split; [done|]. split; [|split; [|split]].
    + destruct (pool_wf_invariant _ Hwf') as (_ & Hdom & _).
      cbn [client_list_ client_map_] in Hdom. by rewrite Hdom.
    + rewrite has_entry_wf by done. unfold list_ids. cbn. set_solver.
    + done.
    + unfold factory_calls. by cbn.
Qed.

End PoolClaims.

(** ** Liveness-timeout callback *)

Section CallbackClaims.

Context {WorkerID : Type} `{Countable WorkerID}.
Context {Client FactoryState NodeID RayletClient : Type}.
Variable WorkerID_FromBinary : string -> WorkerID.
Variable NodeID_FromBinary : string -> NodeID.
Variable raylet_client_factory : string -> Z -> RayletClient.

Local Abbreviation World := (CallbackWorld WorkerID Client FactoryState RayletClient).
Local Abbreviation callback :=
  (UnavailableTimeoutCallback (Client:=Client) (FactoryState:=FactoryState)
     WorkerID_FromBinary NodeID_FromBinary raylet_client_factory).

(** The world after [pool.Disconnect(id)] was invoked in [w]. *)
Local Abbreviation disconnected id w :=
  (mk_world (match client_map_ (worker_client_pool w) !! id with
             | None => worker_client_pool w
             | Some it =>
                 set_map (delete id) (set_list (list_erase it) (worker_client_pool w))
             end)
            (Disconnect_called id :: calls w)).

Lemma pool_Disconnect_eq (id : WorkerID) (w : World) :
  pool_Disconnect id w = Ok tt (disconnected id w).
Proof. unfold pool_Disconnect. by rewrite Disconnect_eq. Qed.

(** C3: with the membership subscription active, the callback invokes
    [pool.Disconnect(worker_id)] in two cases and no other. (a) The
    membership query for the peer's node, dead nodes filtered out, gives no
    node info: [Disconnect] is invoked, no raylet client is built and no
    probe is sent. (b) Node info is found: the callback itself leaves the
    pool as it is and sends one [IsLocalWorkerDead] probe for the worker
    to the raylet at the node manager's address and port; when the probe
    completes, its handler invokes [Disconnect] if the status is OK and
    the reply says dead, and leaves the world it runs in untouched on any
    other status or on a reply that says alive. *)
Theorem UnavailableTimeoutCallback_disconnects
    (gcs_client : GcsClient NodeID) (addr : Address.t) (w : World) :
  IsSubscribedToNodeChange gcs_client = true ->
  let worker_id := WorkerID_FromBinary (Address.worker_id addr) in
  let node_id := NodeID_FromBinary (Address.raylet_id addr) in
  match Nodes_Get gcs_client node_id true with
  | None =>
      callback gcs_client addr w = Ok None (disconnected worker_id w) /\
      probe_calls (calls (disconnected worker_id w)) = probe_calls (calls w)
  | Some node_info =>
      let raylet_client :=
        raylet_client_factory (node_manager_address node_info)
                              (node_manager_port node_info) in
      exists probe w',
        callback gcs_client addr w = Ok (Some probe) w' /\
        worker_client_pool w' = worker_client_pool w /\
        calls w' =
          IsLocalWorkerDead_called raylet_client worker_id
            :: raylet_client_factory_called (node_manager_address node_info)
                                            (node_manager_port node_info)
            :: calls w /\
        probe_client probe = raylet_client /\
        probe_worker probe = worker_id /\
        forall (status : Status) (reply : IsLocalWorkerDeadReply) (w2 : World),
          probe_callback probe status reply w2 =
          Ok tt (if ok status && is_dead reply
                 then disconnected worker_id w2
                 else w2)
  end.
Proof.
  intros Hsub worker_id node_id.
  unfold UnavailableTimeoutCallback, RAY_CHECK. rewrite Hsub. unfold_M.
  fold worker_id. fold node_id.
  destruct (Nodes_Get gcs_client node_id true) as [node_info|].
  - eexists _, _. split; [reflexivity|]. simpl.
    repeat split.
    intros status reply w2. unfold IsLocalWorkerDead_done.
    destruct status, reply as [[]]; simpl; try reflexivity.
    apply pool_Disconnect_eq.
  - rewrite pool_Disconnect_eq. split; reflexivity.
Qed.

(** Without the subscription the callback aborts on its first check and
    calls nothing. *)
Lemma UnavailableTimeoutCallback_unsubscribed
    (gcs_client : GcsClient NodeID) (addr : Address.t) (w : World) :
  IsSubscribedToNodeChange gcs_client = false ->
  callback gcs_client addr w = Fatal (CheckFailed "RAY_CHECK").
Proof.
  intros Hsub. unfold UnavailableTimeoutCallback, RAY_CHECK. by rewrite Hsub.
Qed.

End CallbackClaims.

(* ===================================================================== *)
(** * The properties on concrete pools                                    *)
(* ===================================================================== *)

Lemma pool_w3_w2_w1_reached :
  run_ops Fixture.FromBinary Fixture.counting_factory
          Fixture.connect_w2_w1_w3 Fixture.fresh_pool
  = Ok tt Fixture.pool_w3_w2_w1.
Proof. vm_compute. reflexivity. Qed.

Lemma pool_w3_w2_w1_wf : pool_wf Fixture.pool_w3_w2_w1.
Proof.
  eapply run_ops_wf; [|exact pool_w3_w2_w1_reached]. apply empty_pool_wf.
Qed.

(** Connecting w1, w2, w3 in this order on busy clients leaves the order
    w3, w1, w2: the walk of each call promotes the busy entry at the back. *)
Example connect_w1_w2_w3_order :
  match run_ops Fixture.FromBinary Fixture.counting_factory
          [OpGetOrConnect Fixture.never_idle (Fixture.addr_of "w1");
           OpGetOrConnect Fixture.never_idle (Fixture.addr_of "w2");
           OpGetOrConnect Fixture.never_idle (Fixture.addr_of "w3")]
          Fixture.fresh_pool with
  | Ok _ p => list_ids (client_list_ p) = ["w3"; "w1"; "w2"]
  | Fatal _ => False
  end.
Proof. vm_compute. reflexivity. Qed.

Lemma fresh_pool_wf : pool_wf Fixture.fresh_pool.
Proof. apply empty_pool_wf. Qed.

(** C4 (as stated, refuted): on a new pool whose clients answer
    [IsIdleAfterRPCs] with true, the walk of the second [GetOrConnect(w1)]
    evicts the entry the first call made: the two calls return the clients
    0 and 1 and the factory is invoked twice. *)
Lemma GetOrConnect_twice_idle_builds_two_clients :
  match (c1 ← Fixture.GetOrConnect Fixture.always_idle (Fixture.addr_of "w1");
         c2 ← Fixture.GetOrConnect Fixture.always_idle (Fixture.addr_of "w1");
         mret (c1, c2)) Fixture.fresh_pool with
  | Ok (c1, c2) p => c1 = 0%nat /\ c2 = 1%nat /\ c1 <> c2 /\ factory_calls (trace_ p) = 2%nat
  | Fatal _ => False
  end.
Proof. vm_compute. repeat split; congruence. Qed.

(** [GetOrConnect_twice_same_client] on a new pool with busy clients. *)
Lemma GetOrConnect_twice_same_client_witness :
  exists p2,
    Fixture.GetOrConnect Fixture.never_idle (Fixture.addr_of "w1") Fixture.pool_w1
      = Ok 0%nat p2 /\
    factory_calls (trace_ p2) = 1%nat.
Proof.
  destruct (GetOrConnect_twice_same_client Fixture.FromBinary Fixture.counting_factory
              Fixture.never_idle Fixture.never_idle (Fixture.addr_of "w1")
              Fixture.fresh_pool 0%nat Fixture.pool_w1)
    as (p2 & Hrun & _ & _ & Hcalls).
  - exact fresh_pool_wf.
  - vm_compute. reflexivity.
  - apply Exists_cons_hd. reflexivity.
  - exists p2. split; [exact Hrun|]. apply Hcalls. reflexivity.
Defined.

(** [pool_invariant_after_run] on the run that connects w2, w1, w3. *)
Lemma pool_invariant_after_run_witness : pool_invariant Fixture.pool_w3_w2_w1.
Proof.
  apply (pool_invariant_after_run Fixture.FromBinary Fixture.counting_factory
           Fixture.connect_w2_w1_w3 0%nat).
  vm_compute. reflexivity.
Defined.

(** [Disconnect_idempotent] for a worker the pool does not hold and for w2. *)
Lemma Disconnect_idempotent_witness :
  Disconnect "w9" Fixture.pool_w3_w2_w1 = Ok tt Fixture.pool_w3_w2_w1 /\
  exists p1,
    Disconnect "w2" Fixture.pool_w3_w2_w1 = Ok tt p1 /\
    (Disconnect "w2";; Disconnect "w2") Fixture.pool_w3_w2_w1 = Ok tt p1 /\
    ~ has_entry "w2" p1 /\
    forall p2,
      run_ops Fixture.FromBinary Fixture.counting_factory
        [OpGetOrConnect Fixture.never_idle (Fixture.addr_of "w1"); OpDisconnect "w3"] p1
        = Ok tt p2 ->
      ~ has_entry "w2" p2.
Proof.
  split.
  - apply (proj1 (Disconnect_idempotent Fixture.FromBinary Fixture.counting_factory
                    "w9" Fixture.pool_w3_w2_w1 pool_w3_w2_w1_wf)).
    unfold has_entry. intros [Hin|Hin].
    + apply elem_of_dom in Hin as [it Hit]. vm_compute in Hit. discriminate.
    + unfold list_ids in Hin. simpl in Hin.
      repeat (apply elem_of_cons in Hin as [Hin|Hin]; [discriminate|]).
      by apply elem_of_nil in Hin.
  - destruct (proj2 (Disconnect_idempotent Fixture.FromBinary Fixture.counting_factory
                       "w2" Fixture.pool_w3_w2_w1 pool_w3_w2_w1_wf))
      as (p1 & Hd & Hno & Hdd & Hops).
    exists p1. split; [exact Hd|]. split; [exact Hdd|]. split; [exact Hno|].
    intros p2. apply Hops.
    repeat constructor. vm_compute. discriminate.
Defined.

(** [GetOrConnect_walks_past_busy] on the pool w3, w2, w1 with scripted clients. *)
Lemma GetOrConnect_walks_past_busy_witness :
  exists p',
    Fixture.GetOrConnect Fixture.scripted_idle (Fixture.addr_of "w4") Fixture.pool_w3_w2_w1
      = Ok 3%nat p' /\
    list_entries (client_list_ p') =
      [mk_entry "w4" 3%nat; mk_entry "w2" 0%nat; mk_entry "w3" 2%nat] /\
    ~ has_entry "w1" p'.
Proof.
  destruct (GetOrConnect_walks_past_busy Fixture.FromBinary Fixture.counting_factory
              Fixture.scripted_idle (Fixture.addr_of "w4") Fixture.pool_w3_w2_w1
              (4%nat, mk_entry "w3" 2%nat) (3%nat, mk_entry "w2" 0%nat)
              (2%nat, mk_entry "w1" 1%nat))
    as (c & p' & Hrun & Hl & _ & Hno & Hc & _).
  - exact pool_w3_w2_w1_wf.
  - reflexivity.
  - reflexivity.
  - reflexivity.
  - simpl. discriminate.
  - simpl. intros Hin.
    repeat (apply elem_of_cons in Hin as [Hin|Hin]; [discriminate|]).
    by apply elem_of_nil in Hin.
  - simpl in Hc. subst c. exists p'. split; [exact Hrun|]. split; [exact Hl|exact Hno].
Defined.

(** [GetOrConnect_requires_worker_id] at the empty worker id and at w2. *)
Lemma GetOrConnect_requires_worker_id_witness :
  Fixture.GetOrConnect Fixture.never_idle (Fixture.addr_of EmptyString) Fixture.pool_w3_w2_w1
    = Fatal (CheckFailed "RAY_CHECK_NE") /\
  exists c p',
    Fixture.GetOrConnect Fixture.never_idle (Fixture.addr_of "w2") Fixture.pool_w3_w2_w1
      = Ok c p' /\
    head (list_entries (client_list_ p')) = Some (mk_entry "w2" c).
Proof.
  split.
  - apply (proj1 (GetOrConnect_requires_worker_id Fixture.FromBinary
                    Fixture.counting_factory Fixture.never_idle (Fixture.addr_of EmptyString)
                    Fixture.pool_w3_w2_w1)).
    reflexivity.
  - apply (proj2 (GetOrConnect_requires_worker_id Fixture.FromBinary
                    Fixture.counting_factory Fixture.never_idle (Fixture.addr_of "w2")
                    Fixture.pool_w3_w2_w1)).
    + simpl. discriminate.
    + exact pool_w3_w2_w1_wf.
Defined.

(** [Disconnect_frame] for w2 on the pool w3, w2, w1. *)
Lemma Disconnect_frame_witness :
  exists p',
    Disconnect "w2" Fixture.pool_w3_w2_w1 = Ok tt p' /\
    client_list_ p' = [(4%nat, mk_entry "w3" 2%nat); (2%nat, mk_entry "w1" 1%nat)] /\
    trace_ p' = trace_ Fixture.pool_w3_w2_w1.
Proof.
  destruct (Disconnect_frame (FactoryState:=nat) "w2" Fixture.pool_w3_w2_w1 pool_w3_w2_w1_wf)
    as (p' & Hd & Hl & _ & _ & Htr & _).
  exists p'. split; [exact Hd|]. split; [|exact Htr].
  rewrite Hl. vm_compute. reflexivity.
Defined.

(** [UnavailableTimeoutCallback_disconnects] with no node alive and with
    every node alive. *)
Lemma UnavailableTimeoutCallback_disconnects_witness :
  (exists w',
     UnavailableTimeoutCallback Fixture.FromBinary Fixture.FromBinary Fixture.raylet_at
       Fixture.gcs_none_alive (Fixture.addr_of "w2") (mk_world Fixture.pool_w3_w2_w1 [])
       = Ok None w' /\
     calls w' = [Disconnect_called "w2"]) /\
  (exists probe w',
     UnavailableTimeoutCallback Fixture.FromBinary Fixture.FromBinary Fixture.raylet_at
       Fixture.gcs_all_alive (Fixture.addr_of "w2") (mk_world Fixture.pool_w3_w2_w1 [])
       = Ok (Some probe) w' /\
     worker_client_pool w' = Fixture.pool_w3_w2_w1 /\
     probe_callback probe (Status_error "Unavailable") (mk_reply true) w' = Ok tt w' /\
     probe_callback probe Status_OK (mk_reply false) w' = Ok tt w').
Proof.
  split.
  - pose proof (UnavailableTimeoutCallback_disconnects
                  (Client:=nat) (FactoryState:=nat)
                  Fixture.FromBinary Fixture.FromBinary Fixture.raylet_at
                  Fixture.gcs_none_alive (Fixture.addr_of "w2")
                  (mk_world Fixture.pool_w3_w2_w1 []) eq_refl) as [Hrun _].
    eexists. split; [exact Hrun|]. reflexivity.
  - destruct (UnavailableTimeoutCallback_disconnects
                (Client:=nat) (FactoryState:=nat)
                Fixture.FromBinary Fixture.FromBinary Fixture.raylet_at
                Fixture.gcs_all_alive (Fixture.addr_of "w2")
                (mk_world Fixture.pool_w3_w2_w1 []) eq_refl)
      as (probe & w' & Hrun & Hpool & _ & _ & _ & Hdone).
    exists probe, w'. split; [exact Hrun|]. split; [exact Hpool|].
    split; apply Hdone.
Defined.

(* ===================================================================== *)
(** * Further properties of the pool                                      *)
(* ===================================================================== *)

Section WalkProperties.

Context {WorkerID : Type} `{Countable WorkerID}.
Context {Client FactoryState : Type}.
Local Abbreviation Node := (ListIter * CoreWorkerClientEntry WorkerID Client)%type.
Local Abbreviation Pool := (CoreWorkerClientPool WorkerID Client FactoryState).

Implicit Types (p : Pool) (idle : Client -> bool).

Lemma elem_of_list_entries (e : CoreWorkerClientEntry WorkerID Client) (l : list Node) :
  e ∈ list_entries l <-> exists it, (it, e) ∈ l.
Proof.
  unfold list_entries. rewrite list_elem_of_fmap. split.
  - intros ([it e'] & -> & Hin). by exists it.
  - intros (it & Hin). by exists (it, e).
Qed.

Lemma list_entries_app (l1 l2 : list Node) :
  list_entries (l1 ++ l2) = list_entries l1 ++ list_entries l2.
Proof. unfold list_entries. apply fmap_app. Qed.

(** The walk removes idle entries only. *)
Lemma EvictionWalk_keeps_busy idle p (e : CoreWorkerClientEntry WorkerID Client) :
  e ∈ list_entries (client_list_ p) ->
  idle (core_worker_client e) = false ->
  e ∈ list_entries (client_list_ (EvictionWalkSpec idle p)).
Proof.
  revert e.
  apply (RemoveIdleClients_ind idle (fun p p' => forall e,
    e ∈ list_entries (client_list_ p) ->
    idle (core_worker_client e) = false ->
    e ∈ list_entries (client_list_ p'))).
  - done.
  - intros q l x p' Hl Hx IH e He Hbusy. apply IH; [|done].
    simpl. rewrite Hl, pop_back_snoc. rewrite Hl, list_entries_app in He.
    apply elem_of_app in He as [He|He]; [done|].
    apply list_elem_of_singleton in He. simpl in He. congruence.
  - intros q l x Hl Hx e He _. unfold map_assign_begin. simpl.
    rewrite Hl, pop_back_snoc. rewrite Hl, list_entries_app in He.
    unfold list_entries in *. set_solver.
Qed.

(** The walk asks once per entry it removes and once more where it stops. *)
Lemma EvictionWalk_queries idle p :
  (idle_queries (trace_ (EvictionWalkSpec idle p))
     + length (client_list_ (EvictionWalkSpec idle p))
   = idle_queries (trace_ p) + length (client_list_ p)
     + match client_list_ (EvictionWalkSpec idle p) with [] => 0 | _ => 1 end)%nat.
Proof.
  apply (RemoveIdleClients_ind idle (fun p p' =>
    (idle_queries (trace_ p') + length (client_list_ p')
     = idle_queries (trace_ p) + length (client_list_ p)
       + match client_list_ p' with [] => 0 | _ => 1 end)%nat)).
  - intros q Hq. rewrite Hq. simpl. lia.
  - intros q l x p' Hl Hx IH. rewrite IH. simpl.
    rewrite Hl, pop_back_snoc, length_app. unfold idle_queries. simpl. lia.
  - intros q l x Hl Hx. unfold map_assign_begin. simpl.
    rewrite Hl, pop_back_snoc, length_app. unfold idle_queries. simpl. lia.
Qed.

Lemma EvictionWalk_length idle p :
  (length (client_list_ (EvictionWalkSpec idle p)) <= length (client_list_ p))%nat.
Proof.
  apply (RemoveIdleClients_ind idle (fun p p' =>
    (length (client_list_ p') <= length (client_list_ p))%nat)).
  - done.
  - intros q l x p' Hl Hx IH. simpl in IH.
    rewrite Hl, pop_back_snoc in IH. rewrite Hl, length_app. simpl. lia.
  - intros q l x Hl Hx. unfold map_assign_begin. simpl.
    rewrite Hl, pop_back_snoc, length_app. simpl. lia.
Qed.

(** X1: [RemoveIdleClients] returns and never removes a busy client:
    every entry whose client answers [IsIdleAfterRPCs] with false is in
    the sequence afterwards, and, on a pool that satisfies its invariant,
    its worker id is still a key of the mapping. *)
Theorem RemoveIdleClients_keeps_busy idle p (e : CoreWorkerClientEntry WorkerID Client) :
  e ∈ list_entries (client_list_ p) ->
  idle (core_worker_client e) = false ->
  exists p',
    RemoveIdleClients idle p = Ok tt p' /\
    e ∈ list_entries (client_list_ p') /\
    (pool_wf p -> is_Some (client_map_ p' !! worker_id e)).
Proof.
  intros He Hbusy. exists (EvictionWalkSpec idle p).
  split; [apply RemoveIdleClients_spec|].
  pose proof (EvictionWalk_keeps_busy idle p e He Hbusy) as He'.
  split; [done|]. intros Hwf.
  apply (wf_map_ids _ _ (EvictionWalk_wf idle p Hwf)).
  apply elem_of_list_entries in He' as [it Hin].
  apply elem_of_list_ids. exists it, (core_worker_client e). by destruct e.
Qed.

(** X2: when every pooled client is idle, [RemoveIdleClients] empties a
    pool that satisfies its invariant: no node and no key is left. *)
Theorem RemoveIdleClients_all_idle idle p :
  pool_wf p ->
  Forall (fun n => idle (core_worker_client n.2) = true) (client_list_ p) ->
  exists p',
    RemoveIdleClients idle p = Ok tt p' /\
    client_list_ p' = [] /\
    client_map_ p' = ∅.
Proof.
  intros Hwf Hall. exists (EvictionWalkSpec idle p).
  split; [apply RemoveIdleClients_spec|].
  assert (client_list_ (EvictionWalkSpec idle p) = []) as Hnil.
  { revert Hall.
    apply (RemoveIdleClients_ind idle (fun p p' =>
      Forall (fun n => idle (core_worker_client n.2) = true) (client_list_ p) ->
      client_list_ p' = [])).
    - done.
    - intros q l x p' Hl Hx IH Hall. apply IH. simpl.
      rewrite Hl, pop_back_snoc. rewrite Hl in Hall.
      by apply Forall_app in Hall as [Hall _].
    - intros q l x Hl Hx Hall. rewrite Hl in Hall.
      apply Forall_app in Hall as [_ Hall].
      rewrite Forall_singleton in Hall. congruence. }
  split; [done|].
  apply map_empty. intros id.
  destruct (client_map_ (EvictionWalkSpec idle p) !! id) as [it|] eqn:Hit; [|done].
  apply (wf_map _ (EvictionWalk_wf idle p Hwf)) in Hit as [c Hc].
  rewrite Hnil in Hc. by apply elem_of_nil in Hc.
Qed.

(** X3: [RemoveIdleClients] asks [IsIdleAfterRPCs] once for every entry it
    removes and once more for the entry at which it stops, if it stops at
    one; it never makes the sequence longer. *)
Theorem RemoveIdleClients_query_count idle p :
  exists p',
    RemoveIdleClients idle p = Ok tt p' /\
    (idle_queries (trace_ p') + length (client_list_ p')
     = idle_queries (trace_ p) + length (client_list_ p)
       + match client_list_ p' with [] => 0 | _ => 1 end)%nat /\
    (length (client_list_ p') <= length (client_list_ p))%nat.
Proof.
  exists (EvictionWalkSpec idle p).
  split; [apply RemoveIdleClients_spec|].
  split; [apply EvictionWalk_queries|apply EvictionWalk_length].
Qed.

(** X4: a busy client at the back shields the whole pool from eviction
    in that call: [RemoveIdleClients] asks that one client, moves its entry
    to the front and removes nothing, whatever the other clients would
    answer; the keys of the mapping stay the same. *)
Theorem RemoveIdleClients_busy_back idle p (l : list Node) (x : Node) :
  pool_wf p ->
  client_list_ p = l ++ [x] ->
  idle (core_worker_client x.2) = false ->
  exists p',
    RemoveIdleClients idle p = Ok tt p' /\
    list_entries (client_list_ p') = x.2 :: list_entries l /\
    dom (client_map_ p') = dom (client_map_ p) /\
    idle_queries (trace_ p') = S (idle_queries (trace_ p)).
Proof.
  intros Hwf Hl Hx.
  assert (RemoveIdleClients idle p =
          Ok tt (map_assign_begin (worker_id x.2)
                   (emplace_front x.2
                      (set_list pop_back
                         (log_event (IsIdleAfterRPCs_called (core_worker_client x.2)) p)))))
    as Hrun.
  { unfold RemoveIdleClients. rewrite Hl, length_app. simpl.
    replace (length l + 1)%nat with (S (length l)) by lia.
    rewrite (RemoveIdleClients_loop_step idle _ p l x Hl). by rewrite Hx. }
  eexists. split; [exact Hrun|].
  unfold map_assign_begin. simpl. rewrite Hl, pop_back_snoc.
  split; [done|]. split; [|done].
  rewrite dom_insert_L.
  assert (worker_id x.2 ∈ dom (client_map_ p)) as Hin.
  { apply elem_of_dom. apply (wf_map_ids p _ Hwf). rewrite Hl.
    unfold list_ids. rewrite fmap_app. set_solver. }
  set_solver.
Qed.

(** One walk turns a busy front part and a rest not yet examined into a
    busy front part and a shorter rest. *)
Lemma EvictionWalk_progress idle p (P U : list Node) :
  client_list_ p = P ++ U ->
  Forall (fun n => idle (core_worker_client n.2) = false) P ->
  (U = [] ->
   Forall (fun n => idle (core_worker_client n.2) = false)
          (client_list_ (EvictionWalkSpec idle p))) /\
  (U <> [] ->
   exists P' U',
     client_list_ (EvictionWalkSpec idle p) = P' ++ U' /\
     Forall (fun n => idle (core_worker_client n.2) = false) P' /\
     (length U' < length U)%nat).
Proof.
  revert P U.
  apply (RemoveIdleClients_ind idle (fun p p' => forall P U,
    client_list_ p = P ++ U ->
    Forall (fun n => idle (core_worker_client n.2) = false) P ->
    (U = [] -> Forall (fun n => idle (core_worker_client n.2) = false) (client_list_ p')) /\
    (U <> [] ->
     exists P' U',
       client_list_ p' = P' ++ U' /\
       Forall (fun n => idle (core_worker_client n.2) = false) P' /\
       (length U' < length U)%nat))).
  - intros q Hq P U HPU _. rewrite Hq in HPU. symmetry in HPU.
    apply app_eq_nil in HPU as [-> ->]. split; [by rewrite Hq|done].
  - intros q l x p' Hl Hx IH P U HPU HP. rewrite Hl in HPU.
    destruct U as [|y U _] using rev_ind.
    + rewrite app_nil_r in HPU. subst P. apply Forall_app in HP as [_ HP].
      rewrite Forall_singleton in HP. congruence.
    + rewrite app_assoc in HPU. apply app_inj_tail in HPU as [Hl' <-].
      split; [intros Hnil; by destruct U|]. intros _.
      destruct (IH P U) as [IHnil IHcons]; [by simpl; rewrite Hl, pop_back_snoc|done|].
      destruct (decide (U = [])) as [->|HU].
      * exists (client_list_ p'), []. rewrite app_nil_r.
        split; [done|]. split; [by apply IHnil|]. rewrite length_app. simpl. lia.
      * destruct (IHcons HU) as (P' & U' & Hp' & HP' & Hlen).
        exists P', U'. split; [done|]. split; [done|]. rewrite length_app. simpl. lia.
  - intros q l x Hl Hx P U HPU HP. rewrite Hl in HPU.
    unfold map_assign_begin. simpl. rewrite Hl, pop_back_snoc.
    destruct U as [|y U _] using rev_ind.
    + rewrite app_nil_r in HPU. subst P. split; [|done]. intros _.
      apply Forall_app in HP as [HP _]. by constructor.
    + rewrite app_assoc in HPU. apply app_inj_tail in HPU as [Hl' <-].
      split; [intros Hnil; by destruct U|]. intros _.
      exists ((next_node_ q, x.2) :: P), U. subst l.
      split; [done|]. split; [by constructor|]. rewrite length_app. simpl. lia.
Qed.

Lemma RemoveIdleClients_times_busy idle (n : nat) :
  forall p (P U : list Node),
    client_list_ p = P ++ U ->
    Forall (fun m => idle (core_worker_client m.2) = false) P ->
    (length U <= n)%nat ->
    exists p',
      RemoveIdleClients_times idle n p = Ok tt p' /\
      Forall (fun m => idle (core_worker_client m.2) = false) (client_list_ p') /\
      forall e, e ∈ list_entries (client_list_ p) ->
                idle (core_worker_client e) = false ->
                e ∈ list_entries (client_list_ p').
Proof.
  induction n as [|n IH]; intros p P U HPU HP Hlen.
  - destruct U; [|simpl in Hlen; lia]. rewrite app_nil_r in HPU.
    exists p. split; [done|]. split; [by rewrite HPU|done].
  - simpl. unfold_M. rewrite RemoveIdleClients_spec.
    destruct (EvictionWalk_progress idle p P U HPU HP) as [Hnil Hcons].
    assert (exists P' U', client_list_ (EvictionWalkSpec idle p) = P' ++ U' /\
              Forall (fun m => idle (core_worker_client m.2) = false) P' /\
              (length U' <= n)%nat) as (P' & U' & HPU' & HP' & Hlen').
    { destruct (decide (U = [])) as [HU|HU].
      - exists (client_list_ (EvictionWalkSpec idle p)), [].
        rewrite app_nil_r. split; [done|]. split; [by apply Hnil|simpl; lia].
      - destruct (Hcons HU) as (P' & U' & ? & ? & ?). exists P', U'.
        split; [done|]. split; [done|lia]. }
    destruct (IH _ P' U' HPU' HP' Hlen') as (p' & Hrun & Hall & Hkeep).
    exists p'. split; [done|]. split; [done|].
    intros e He Hbusy. apply Hkeep; [|done]. by apply EvictionWalk_keeps_busy.
Qed.

(** X13: a busy entry only delays eviction. When [RemoveIdleClients] runs
    as many times as the pool has entries, with the clients answering the
    same way each time, every client left in the pool is busy and every
    busy client is still there: all idle clients have been evicted. *)
Theorem RemoveIdleClients_times_evicts_all_idle idle (n : nat) p :
  (length (client_list_ p) <= n)%nat ->
  exists p',
    RemoveIdleClients_times idle n p = Ok tt p' /\
    Forall (fun m => idle (core_worker_client m.2) = false) (client_list_ p') /\
    forall e, e ∈ list_entries (client_list_ p) ->
              idle (core_worker_client e) = false ->
              e ∈ list_entries (client_list_ p').
Proof.
  intros Hlen. by apply (RemoveIdleClients_times_busy idle n p [] (client_list_ p)).
Qed.

End WalkProperties.

Section OperationProperties.

Context {WorkerID : Type} `{Countable WorkerID}.
Context {Client FactoryState : Type}.
Variable WorkerID_FromBinary : string -> WorkerID.
Variable core_worker_client_factory_ :
  Address.t -> FactoryState -> Client * FactoryState.

Local Abbreviation Node := (ListIter * CoreWorkerClientEntry WorkerID Client)%type.
Local Abbreviation Pool := (CoreWorkerClientPool WorkerID Client FactoryState).
Local Abbreviation get_or_connect :=
  (GetOrConnect WorkerID_FromBinary core_worker_client_factory_).
Local Abbreviation run := (run_ops WorkerID_FromBinary core_worker_client_factory_).
Local Abbreviation run1 := (run_op WorkerID_FromBinary core_worker_client_factory_).
Local Abbreviation from_binary addr := (WorkerID_FromBinary (Address.worker_id addr)).

Implicit Types (p : Pool) (idle : Client -> bool) (addr : Address.t).

(** [GetOrConnect] keeps every busy entry, and returns the pooled client
    when the entry of the worker it is asked for is busy. *)
Lemma GetOrConnect_busy_entry idle addr p c p' (e : CoreWorkerClientEntry WorkerID Client) :
  pool_wf p ->
  get_or_connect idle addr p = Ok c p' ->
  e ∈ list_entries (client_list_ p) ->
  idle (core_worker_client e) = false ->
  e ∈ list_entries (client_list_ p') /\
  (worker_id e = from_binary addr ->
   c = core_worker_client e /\
   factory_state_ p' = factory_state_ p /\
   factory_calls (trace_ p') = factory_calls (trace_ p)).
Proof.
  intros Hwf Hrun He Hbusy.
  destruct (decide (Address.worker_id addr = EmptyString)) as [Hemp|Hne].
  { by rewrite GetOrConnect_empty_id in Hrun. }
  pose proof (EvictionWalk_wf idle p Hwf) as Hwf1.
  pose proof (EvictionWalk_keeps_busy idle p e He Hbusy) as He1.
  destruct (EvictionWalk_factory (FactoryState:=FactoryState) idle p) as [Hfs Hcalls].
  apply elem_of_list_entries in He1 as [ite Hin1].
  destruct (GetOrConnect_cases WorkerID_FromBinary core_worker_client_factory_
              idle addr p Hne Hwf)
    as [(it & c' & Hit & Hin & Heq)|(Hnone & Heq)];
    rewrite Heq in Hrun; inversion Hrun; subst; clear Hrun;
    cbn [client_list_ factory_state_ trace_].
  - split.
    + apply elem_of_list_entries.
      destruct (decide (worker_id e = from_binary addr)) as [Hid|Hid].
      * destruct e as [ide ce]. simpl in Hid. subst ide.
        destruct (wf_entry_unique _ _ _ _ _ _ Hwf1 Hin1 Hin) as [_ ->].
        eexists. by left.
      * exists ite. right. rewrite (list_erase_filter _ _ _ Hwf1 Hit).
        by apply list_elem_of_filter.
    + intros Hid. destruct e as [ide ce]. simpl in *. subst ide.
      by destruct (wf_entry_unique _ _ _ _ _ _ Hwf1 Hin1 Hin) as [_ ->].
  - split.
    + apply elem_of_list_entries. exists ite. by right.
    + intros Hid. exfalso. destruct e as [ide ce]. simpl in *. subst ide.
      assert (client_map_ (EvictionWalkSpec idle p) !! from_binary addr = Some ite)
        as Hsome by (apply (wf_map _ Hwf1); eauto).
      congruence.
Qed.

(** X5: a busy pooled client is always reused. When the pool holds an
    entry for the worker of the address and its client answers
    [IsIdleAfterRPCs] with false, [GetOrConnect] returns that client, does
    not invoke the factory and leaves the entry at the front; the other
    fields of the address (node, ip, port) play no part. *)
Theorem GetOrConnect_reuses_busy_client idle addr p (it : ListIter) (c : Client) :
  pool_wf p ->
  Address.worker_id addr <> EmptyString ->
  (it, mk_entry (from_binary addr) c) ∈ client_list_ p ->
  idle c = false ->
  exists p',
    get_or_connect idle addr p = Ok c p' /\
    head (list_entries (client_list_ p')) = Some (mk_entry (from_binary addr) c) /\
    factory_state_ p' = factory_state_ p /\
    factory_calls (trace_ p') = factory_calls (trace_ p).
Proof.
  intros Hwf Hne Hin Hbusy.
  destruct (GetOrConnect_ok WorkerID_FromBinary core_worker_client_factory_
              idle addr p Hne Hwf) as (c' & p' & it' & rest & Hrun & _ & Hl & _).
  destruct (GetOrConnect_busy_entry idle addr p c' p' (mk_entry (from_binary addr) c)
              Hwf Hrun) as [_ Hsame]; [apply elem_of_list_entries; eauto|done|].
  destruct (Hsame eq_refl) as (-> & Hfs & Hcalls). simpl in *.
  exists p'. split; [done|]. split; [by rewrite Hl|done].
Qed.


Lemma run_op_keeps_busy (w : WorkerID) (c : Client) (op : PoolOp WorkerID Client) p p' :
  pool_wf p ->
  mk_entry w c ∈ list_entries (client_list_ p) ->
  stays_busy w c [op] ->
  run1 op p = Ok tt p' ->
  mk_entry w c ∈ list_entries (client_list_ p').
Proof.
  intros Hwf He Hop Hrun.
  unfold stays_busy in Hop. rewrite Forall_singleton in Hop.
  destruct op as [idle addr|id]; simpl in Hrun.
  - unfold_M.
    destruct (get_or_connect idle addr p) as [c' q|f] eqn:Hgc; [|done].
    inversion Hrun; subst q.
    by destruct (GetOrConnect_busy_entry idle addr p c' p' (mk_entry w c) Hwf Hgc He Hop).
  - rewrite Disconnect_wf_eq in Hrun by done. inversion Hrun; subst p'. simpl.
    apply elem_of_list_entries in He as [it Hin].
    apply elem_of_list_entries. exists it. by apply list_elem_of_filter.
Qed.

(** X7: a client that stays busy is removed by [Disconnect] only. Through
    any run of pool operations in which the client of worker [w] answers
    every [IsIdleAfterRPCs] with false and no [Disconnect(w)] occurs, the
    pool keeps the entry of [w] with that same client. *)
Theorem busy_client_outlives_run (w : WorkerID) (c : Client)
    (ops : list (PoolOp WorkerID Client)) p :
  pool_wf p ->
  mk_entry w c ∈ list_entries (client_list_ p) ->
  stays_busy w c ops ->
  match run ops p with
  | Ok _ p' =>
      mk_entry w c ∈ list_entries (client_list_ p') /\
      is_Some (client_map_ p' !! w)
  | Fatal _ => True
  end.
Proof.
  revert p. induction ops as [|op ops IH]; intros p Hwf He Hops; simpl.
  - unfold_M. split; [done|]. apply (wf_map_ids p w Hwf).
    apply elem_of_list_entries in He as [it Hin]. apply elem_of_list_ids. eauto.
  - unfold_M. destruct (run1 op p) as [[] q|f] eqn:Hop; [|done].
    unfold stays_busy in Hops. apply Forall_cons in Hops as [Hop1 Hops].
    apply IH; [by eapply run_op_wf| |done].
    eapply run_op_keeps_busy; eauto.
    unfold stays_busy. by rewrite Forall_singleton.
Qed.

(** X8: [Disconnect] calls commute: on a pool that satisfies its
    invariant, disconnecting two workers in either order leaves the same
    pool. *)
Theorem Disconnect_commutes (w1 w2 : WorkerID) p :
  pool_wf p ->
  (Disconnect w1;; Disconnect w2) p = (Disconnect w2;; Disconnect w1) p.
Proof.
  intros Hwf. unfold_M.
  assert (forall w, pool_wf (mk_pool (filter (fun n => worker_id n.2 <> w) (client_list_ p))
                                     (delete w (client_map_ p))
                                     (next_node_ p) (factory_state_ p) (trace_ p)))
    as Hwf'.
  { intros w. apply (Disconnect_wf w p _ Hwf). by apply Disconnect_wf_eq. }
  rewrite (Disconnect_wf_eq w1 p Hwf), (Disconnect_wf_eq w2 p Hwf).
  rewrite (Disconnect_wf_eq w2 _ (Hwf' w1)), (Disconnect_wf_eq w1 _ (Hwf' w2)).
  simpl. f_equal. f_equal.
  - rewrite !list_filter_filter. apply list_filter_iff. tauto.
  - apply delete_delete.
Qed.

(** X9: [Disconnect(w)] shortens the sequence by exactly one node when the
    mapping holds [w] and leaves its length alone when it does not; either
    way the mapping has as many keys as the sequence has nodes. *)
Theorem Disconnect_size (w : WorkerID) p :
  pool_wf p ->
  exists p',
    Disconnect w p = Ok tt p' /\
    (length (client_list_ p')
       + match client_map_ p !! w with Some _ => 1 | None => 0 end
     = length (client_list_ p))%nat /\
    size (client_map_ p') = length (client_list_ p').
Proof.
  intros Hwf.
  destruct (Disconnect w p) as [[] p'|f] eqn:Hd; [|by rewrite Disconnect_eq in Hd].
  exists p'. split; [done|].
  pose proof (Disconnect_wf w p p' Hwf Hd) as Hwf'.
  split; [|by destruct (pool_wf_invariant p' Hwf')].
  rewrite Disconnect_eq in Hd. inversion Hd; subst p'.
  destruct (client_map_ p !! w) as [it|] eqn:Hit; [|lia].
  apply (wf_map p Hwf) in Hit as [c Hin]. simpl.
  destruct (list_erase_split it _ _ (wf_handles p Hwf) Hin) as (l1 & l2 & Hl & -> & _).
  rewrite Hl, !length_app. simpl. lia.
Qed.

(** X10: a [GetOrConnect] that returns leaves a pool with at least one
    entry and at most one entry more than before. *)
Theorem GetOrConnect_size idle addr p c p' :
  pool_wf p ->
  get_or_connect idle addr p = Ok c p' ->
  (1 <= length (client_list_ p') <= S (length (client_list_ p)))%nat.
Proof.
  intros Hwf Hrun.
  destruct (decide (Address.worker_id addr = EmptyString)) as [Hemp|Hne].
  { by rewrite GetOrConnect_empty_id in Hrun. }
  pose proof (EvictionWalk_wf idle p Hwf) as Hwf1.
  pose proof (EvictionWalk_length idle p) as Hlen.
  destruct (GetOrConnect_cases WorkerID_FromBinary core_worker_client_factory_
              idle addr p Hne Hwf)
    as [(it & c' & Hit & Hin & Heq)|(Hnone & Heq)];
    rewrite Heq in Hrun; inversion Hrun; subst; cbn [client_list_ length].
  - destruct (list_erase_split it _ _ (wf_handles _ Hwf1) Hin) as (l1 & l2 & Hl & -> & _).
    rewrite Hl in Hlen. rewrite !length_app in *. simpl in Hlen. lia.
  - lia.
Qed.

(** X14: the factory is invoked at most once per [GetOrConnect]: over a
    run of pool operations that runs to its end, the number of factory
    invocations grows by at most the number of [GetOrConnect] calls, and
    [Disconnect] calls add none. *)
Theorem factory_calls_bounded (ops : list (PoolOp WorkerID Client)) p p' :
  pool_wf p ->
  run ops p = Ok tt p' ->
  (factory_calls (trace_ p) <= factory_calls (trace_ p')
   <= factory_calls (trace_ p) + GetOrConnect_count ops)%nat.
Proof.
  revert p. induction ops as [|op ops IH]; intros p Hwf; simpl.
  - unfold_M. intros [= <-]. unfold GetOrConnect_count. simpl. lia.
  - unfold_M. destruct (run1 op p) as [[] q|f] eqn:Hop; [|done].
    intros Hrun. specialize (IH q (run_op_wf _ _ op p q Hwf Hop) Hrun).
    assert (factory_calls (trace_ p) <= factory_calls (trace_ q)
            <= factory_calls (trace_ p)
               + GetOrConnect_count [op])%nat as Hstep.
    { destruct op as [idle addr|id]; simpl in Hop.
      - unfold_M. destruct (get_or_connect idle addr p) as [c q'|f] eqn:Hgc; [|done].
        inversion Hop; subst q'.
        destruct (decide (Address.worker_id addr = EmptyString)) as [Hemp|Hne].
        { by rewrite GetOrConnect_empty_id in Hgc. }
        destruct (EvictionWalk_factory (FactoryState:=FactoryState) idle p) as [_ Hcalls].
        unfold GetOrConnect_count. simpl.
        destruct (GetOrConnect_cases WorkerID_FromBinary core_worker_client_factory_
                    idle addr p Hne Hwf)
          as [(it & c' & Hit & Hin & Heq)|(Hnone & Heq)];
          rewrite Heq in Hgc; inversion Hgc; subst; simpl.
        + rewrite Hcalls. lia.
        + unfold factory_calls in *. simpl. rewrite Hcalls. lia.
      - rewrite Disconnect_wf_eq in Hop by done. inversion Hop; subst q.
        unfold GetOrConnect_count. simpl. lia. }
    unfold GetOrConnect_count in *. simpl in *.
    destruct op; simpl in *; lia.
Qed.

End OperationProperties.

Section CallbackProperties.

Context {WorkerID : Type} `{Countable WorkerID}.
Context {Client FactoryState NodeID RayletClient : Type}.
Variable WorkerID_FromBinary : string -> WorkerID.
Variable NodeID_FromBinary : string -> NodeID.
Variable raylet_client_factory : string -> Z -> RayletClient.

Local Abbreviation Pool := (CoreWorkerClientPool WorkerID Client FactoryState).
Local Abbreviation World := (CallbackWorld WorkerID Client FactoryState RayletClient).
Local Abbreviation callback :=
  (UnavailableTimeoutCallback (Client:=Client) (FactoryState:=FactoryState)
     WorkerID_FromBinary NodeID_FromBinary raylet_client_factory).





(** X12: a callback that fires late does no harm. When the pool holds no
    entry for the worker of the address, the callback leaves the pool
    exactly as it is on every path, and so does the completion handler of
    its probe on a pool without that worker. *)
Theorem UnavailableTimeoutCallback_stale
    (gcs_client : GcsClient NodeID) (addr : Address.t) (w : World) :
  ~ has_entry (WorkerID_FromBinary (Address.worker_id addr)) (worker_client_pool w) ->
  match callback gcs_client addr w with
  | Ok r w' =>
      worker_client_pool w' = worker_client_pool w /\
      match r with
      | None => True
      | Some probe =>
          forall (status : Status) (reply : IsLocalWorkerDeadReply) (w2 : World),
            ~ has_entry (WorkerID_FromBinary (Address.worker_id addr))
                        (worker_client_pool w2) ->
            exists w3,
              probe_callback probe status reply w2 = Ok tt w3 /\
              worker_client_pool w3 = worker_client_pool w2
      end
  | Fatal f => f = CheckFailed "RAY_CHECK"
  end.
Proof.
  assert (forall id (v : World), ~ has_entry id (worker_client_pool v) ->
            exists v', pool_Disconnect id v = Ok tt v' /\
                       worker_client_pool v' = worker_client_pool v) as Hstale.
  { intros id v Hno. unfold pool_Disconnect. rewrite Disconnect_eq.
    destruct (client_map_ (worker_client_pool v) !! id) as [it|] eqn:Hit.
    - exfalso. apply Hno. left. apply elem_of_dom. eauto.
    - eexists. split; done. }
  intros Hno. unfold UnavailableTimeoutCallback, RAY_CHECK.
  destruct (IsSubscribedToNodeChange gcs_client); [|done]. unfold_M.
  destruct (Nodes_Get gcs_client _ true) as [node_info|].
  - split; [done|].
    intros status reply w2 Hno2. unfold IsLocalWorkerDead_done.
    destruct status; simpl; [destruct (is_dead reply)|]; eauto.
  - destruct (Hstale _ w Hno) as (w' & -> & Hsame). by split.
Qed.

End CallbackProperties.

(* ===================================================================== *)
(** * The further properties on concrete pools                            *)
(* ===================================================================== *)

Lemma pool_w3_w2_w1_without_w9 : ~ has_entry "w9" Fixture.pool_w3_w2_w1.
Proof.
  unfold has_entry. intros [Hin|Hin].
  - apply elem_of_dom in Hin as [it Hit]. vm_compute in Hit. discriminate.
  - unfold list_ids in Hin. simpl in Hin.
    repeat (apply elem_of_cons in Hin as [Hin|Hin]; [discriminate|]).
    by apply elem_of_nil in Hin.
Qed.

(** [RemoveIdleClients_keeps_busy] for the busy client of w2. *)
Lemma RemoveIdleClients_keeps_busy_witness :
  exists p',
    RemoveIdleClients Fixture.scripted_idle Fixture.pool_w3_w2_w1 = Ok tt p' /\
    mk_entry "w2" 0%nat ∈ list_entries (client_list_ p') /\
    is_Some (client_map_ p' !! "w2").
Proof.
  destruct (RemoveIdleClients_keeps_busy (FactoryState:=nat) Fixture.scripted_idle
              Fixture.pool_w3_w2_w1 (mk_entry "w2" 0%nat))
    as (p' & Hrun & Hin & Hmap).
  - simpl. apply elem_of_cons. right. apply elem_of_cons. by left.
  - reflexivity.
  - exists p'. split; [exact Hrun|]. split; [exact Hin|]. exact (Hmap pool_w3_w2_w1_wf).
Defined.

(** [RemoveIdleClients_all_idle] on the pool w3, w2, w1 with idle clients. *)
Lemma RemoveIdleClients_all_idle_witness :
  exists p',
    RemoveIdleClients Fixture.always_idle Fixture.pool_w3_w2_w1 = Ok tt p' /\
    client_list_ p' = [] /\
    client_map_ p' = ∅.
Proof.
  apply (RemoveIdleClients_all_idle Fixture.always_idle Fixture.pool_w3_w2_w1).
  - exact pool_w3_w2_w1_wf.
  - simpl. repeat constructor.
Defined.

(** [RemoveIdleClients_busy_back] on the pool w3, w2, w1 with w1 busy and
    the others idle. *)
Lemma RemoveIdleClients_busy_back_witness :
  exists p',
    RemoveIdleClients (fun c => negb (Nat.eqb c 1)) Fixture.pool_w3_w2_w1 = Ok tt p' /\
    list_entries (client_list_ p') =
      [mk_entry "w1" 1%nat; mk_entry "w3" 2%nat; mk_entry "w2" 0%nat] /\
    dom (client_map_ p') = dom (client_map_ Fixture.pool_w3_w2_w1) /\
    idle_queries (trace_ p') = 3%nat.
Proof.
  apply (RemoveIdleClients_busy_back (fun c => negb (Nat.eqb c 1)) Fixture.pool_w3_w2_w1
           [(4%nat, mk_entry "w3" 2%nat); (3%nat, mk_entry "w2" 0%nat)]
           (2%nat, mk_entry "w1" 1%nat)).
  - exact pool_w3_w2_w1_wf.
  - reflexivity.
  - reflexivity.
Defined.

(** [GetOrConnect_reuses_busy_client] for w2 through an address with
    another node, ip and port. *)
Lemma GetOrConnect_reuses_busy_client_witness :
  exists p',
    Fixture.GetOrConnect Fixture.scripted_idle
      (Address.mk "node-7" "10.9.9.9" 1 "w2") Fixture.pool_w3_w2_w1 = Ok 0%nat p' /\
    head (list_entries (client_list_ p')) = Some (mk_entry "w2" 0%nat) /\
    factory_state_ p' = 3%nat /\
    factory_calls (trace_ p') = 3%nat.
Proof.
  apply (GetOrConnect_reuses_busy_client Fixture.FromBinary Fixture.counting_factory
           Fixture.scripted_idle (Address.mk "node-7" "10.9.9.9" 1 "w2")
           Fixture.pool_w3_w2_w1 3%nat 0%nat).
  - exact pool_w3_w2_w1_wf.
  - simpl. discriminate.
  - simpl. apply elem_of_cons. right. apply elem_of_cons. by left.
  - reflexivity.
Defined.


(** [busy_client_outlives_run] for the client of w2 through a connect of
    w4, a disconnect of w3 and a reconnect of w3. *)
Lemma busy_client_outlives_run_witness :
  exists p',
    run_ops Fixture.FromBinary Fixture.counting_factory
      [OpGetOrConnect Fixture.scripted_idle (Fixture.addr_of "w4");
       OpDisconnect "w3";
       OpGetOrConnect Fixture.scripted_idle (Fixture.addr_of "w3")]
      Fixture.pool_w3_w2_w1 = Ok tt p' /\
    mk_entry "w2" 0%nat ∈ list_entries (client_list_ p') /\
    is_Some (client_map_ p' !! "w2").
Proof.
  pose proof (busy_client_outlives_run Fixture.FromBinary Fixture.counting_factory
                "w2" 0%nat
                [OpGetOrConnect Fixture.scripted_idle (Fixture.addr_of "w4");
                 OpDisconnect "w3";
                 OpGetOrConnect Fixture.scripted_idle (Fixture.addr_of "w3")]
                Fixture.pool_w3_w2_w1 pool_w3_w2_w1_wf) as Hrun.
  destruct (run_ops _ _ _ Fixture.pool_w3_w2_w1) as [[] p'|f] eqn:E.
  - exists p'. split; [reflexivity|]. apply Hrun.
    + simpl. apply elem_of_cons. right. apply elem_of_cons. by left.
    + unfold stays_busy. repeat constructor. discriminate.
  - vm_compute in E. discriminate.
Defined.

(** [Disconnect_commutes] for w1 and w3. *)
Lemma Disconnect_commutes_witness :
  (Disconnect "w1";; Disconnect "w3") Fixture.pool_w3_w2_w1 =
  (Disconnect "w3";; Disconnect "w1") Fixture.pool_w3_w2_w1.
Proof.
  apply (Disconnect_commutes "w1" "w3" Fixture.pool_w3_w2_w1). exact pool_w3_w2_w1_wf.
Defined.

(** [Disconnect_size] for w2. *)
Lemma Disconnect_size_witness :
  exists p',
    Disconnect "w2" Fixture.pool_w3_w2_w1 = Ok tt p' /\
    length (client_list_ p') = 2%nat /\
    size (client_map_ p') = 2%nat.
Proof.
  destruct (Disconnect_size "w2" Fixture.pool_w3_w2_w1 pool_w3_w2_w1_wf)
    as (p' & Hd & Hlen & Hsize).
  exists p'. split; [exact Hd|].
  assert (length (client_list_ p') = 2%nat) as Hl.
  { destruct (client_map_ Fixture.pool_w3_w2_w1 !! "w2") eqn:Hit.
    - simpl in Hlen. lia.
    - vm_compute in Hit. discriminate. }
  split; [exact Hl|]. by rewrite Hsize.
Defined.

(** [GetOrConnect_size] for a fourth worker on the pool w3, w2, w1. *)
Lemma GetOrConnect_size_witness :
  match Fixture.GetOrConnect Fixture.scripted_idle (Fixture.addr_of "w4")
          Fixture.pool_w3_w2_w1 with
  | Ok _ p' => (1 <= length (client_list_ p') <= 4)%nat
  | Fatal _ => False
  end.
Proof.
  destruct (Fixture.GetOrConnect Fixture.scripted_idle (Fixture.addr_of "w4")
              Fixture.pool_w3_w2_w1) as [c p'|f] eqn:E.
  - exact (GetOrConnect_size Fixture.FromBinary Fixture.counting_factory
             Fixture.scripted_idle (Fixture.addr_of "w4") Fixture.pool_w3_w2_w1
             c p' pool_w3_w2_w1_wf E).
  - vm_compute in E. discriminate.
Defined.

(** [factory_calls_bounded] on the run that connects w2, w1, w3. *)
Lemma factory_calls_bounded_witness :
  (0 <= factory_calls (trace_ Fixture.pool_w3_w2_w1) <= 3)%nat.
Proof.
  apply (factory_calls_bounded Fixture.FromBinary Fixture.counting_factory
           Fixture.connect_w2_w1_w3 Fixture.fresh_pool Fixture.pool_w3_w2_w1).
  - apply empty_pool_wf.
  - vm_compute. reflexivity.
Defined.

(** [RemoveIdleClients_times_evicts_all_idle]: three walks on the pool
    w3, w2, w1 with w1 and w3 idle. *)
Lemma RemoveIdleClients_times_evicts_all_idle_witness :
  exists p',
    RemoveIdleClients_times Fixture.scripted_idle 3 Fixture.pool_w3_w2_w1 = Ok tt p' /\
    Forall (fun m => Fixture.scripted_idle (core_worker_client m.2) = false)
           (client_list_ p').
Proof.
  destruct (RemoveIdleClients_times_evicts_all_idle (FactoryState:=nat)
              Fixture.scripted_idle 3 Fixture.pool_w3_w2_w1)
    as (p' & Hrun & Hall & _).
  - simpl. lia.
  - exists p'. split; [exact Hrun|exact Hall].
Defined.


(** [UnavailableTimeoutCallback_stale] for a worker the pool does not hold. *)
Lemma UnavailableTimeoutCallback_stale_witness :
  match UnavailableTimeoutCallback Fixture.FromBinary Fixture.FromBinary Fixture.raylet_at
          Fixture.gcs_none_alive (Fixture.addr_of "w9")
          (mk_world Fixture.pool_w3_w2_w1 []) with
  | Ok _ w' => worker_client_pool w' = Fixture.pool_w3_w2_w1
  | Fatal _ => False
  end.
Proof.
  pose proof (UnavailableTimeoutCallback_stale
                Fixture.FromBinary Fixture.FromBinary Fixture.raylet_at
                Fixture.gcs_none_alive (Fixture.addr_of "w9")
                (mk_world Fixture.pool_w3_w2_w1 []) pool_w3_w2_w1_without_w9) as Hstale.
  destruct (UnavailableTimeoutCallback _ _ _ _ _ _) as [r w'|f] eqn:E.
  - exact (proj1 Hstale).
  - vm_compute in E. discriminate.
Defined.
